(** * hello-alice: the memory and context subsystem, embedded and verified

    A shallow embedding of [agent/entities.py], [agent/features.py],
    [agent/use_cases.py] and the JSON repository of
    [agent/infrastructure/__init__.py].

    Conventions of the embedding:
    - Python [str] is [string]; [str.lower], [str.strip], [str.split] and
      [\s] act on the ASCII range.
    - [datetime.now()], [time.time()] and [uuid.uuid4()] read an explicit
      [World]; every function that calls them is written in the [Py] monad.
    - a Python exception is the [Raise] outcome of [Py]; the state reached
      when it is raised is kept, as in Python.
    - paths are POSIX paths; the storage directory holds regular files
      only, each with the time of its last modification. *)

From Stdlib Require Import String Ascii List Bool Arith NArith ZArith QArith Lia.
From Stdlib Require Import Qminmax Permutation Sorted DecimalString DecimalZ.
Import ListNotations.
Set Warnings "-register-all".
Open Scope string_scope.
Open Scope list_scope.
Open Scope nat_scope.

(* ===================================================================== *)
(** * Text: the [str] methods the program calls                           *)
(* ===================================================================== *)

Module Text.

Definition code (c : ascii) : nat := nat_of_ascii c.

(** [c.isupper()] on ASCII: 'A'..'Z'. *)
Definition is_upper (c : ascii) : bool := (65 <=? code c) && (code c <=? 90).

Definition lower_char (c : ascii) : ascii :=
  if is_upper c then ascii_of_nat (code c + 32) else c.

(** [s.lower()] *)
Fixpoint lower (s : string) : string :=
  match s with
  | EmptyString => EmptyString
  | String c s' => String (lower_char c) (lower s')
  end.

(** [c.isspace()]: tab, newline, vertical tab, form feed, carriage return,
    the four separators 0x1c..0x1f and the space. *)
Definition isspace (c : ascii) : bool :=
  ((9 <=? code c) && (code c <=? 13)) ||
  ((28 <=? code c) && (code c <=? 31)) ||
  (code c =? 32).

Fixpoint lstrip (s : string) : string :=
  match s with
  | EmptyString => EmptyString
  | String c s' => if isspace c then lstrip s' else s
  end.

Fixpoint rstrip (s : string) : string :=
  match s with
  | EmptyString => EmptyString
  | String c s' =>
      match rstrip s' with
      | EmptyString => if isspace c then EmptyString else String c EmptyString
      | r => String c r
      end
  end.

(** [s.strip()] *)
Definition strip (s : string) : string := rstrip (lstrip s).

(** [s.startswith(p)] *)
Fixpoint startswith (p s : string) : bool :=
  match p, s with
  | EmptyString, _ => true
  | String a p', String b s' => Ascii.eqb a b && startswith p' s'
  | String _ _, EmptyString => false
  end.

(** [sub in s] *)
Fixpoint contains (sub s : string) : bool :=
  startswith sub s ||
  match s with
  | EmptyString => false
  | String _ s' => contains sub s'
  end.

(** [s.count(c)] for a one-character needle. *)
Fixpoint count (c : ascii) (s : string) : nat :=
  match s with
  | EmptyString => 0
  | String a s' => (if Ascii.eqb a c then 1 else 0) + count c s'
  end.

(** [s.split()]: maximal runs of non-space characters, no empty token.
    [split_acc s w] carries the token being read, reversed. *)
Fixpoint rev_string (acc s : string) : string :=
  match s with
  | EmptyString => acc
  | String c s' => rev_string (String c acc) s'
  end.

Definition flush (w : string) : list string :=
  match w with
  | EmptyString => []
  | _ => [rev_string EmptyString w]
  end.

Fixpoint split_acc (s w : string) : list string :=
  match s with
  | EmptyString => flush w
  | String c s' =>
      if isspace c then flush w ++ split_acc s' EmptyString
      else split_acc s' (String c w)
  end.

Definition split (s : string) : list string := split_acc s EmptyString.

(** [sep.join(parts)] *)
Fixpoint join (sep : string) (parts : list string) : string :=
  match parts with
  | [] => EmptyString
  | [p] => p
  | p :: ps => p ++ sep ++ join sep ps
  end.

(** [s.endswith(suffix)] *)
Fixpoint endswith (suffix s : string) : bool :=
  String.eqb suffix s ||
  match s with
  | EmptyString => false
  | String _ s' => endswith suffix s'
  end.

(** The first [n] characters, [s[:n]]. *)
Fixpoint take (n : nat) (s : string) : string :=
  match n, s with
  | S n', String c s' => String c (take n' s')
  | _, _ => EmptyString
  end.

End Text.

(* ===================================================================== *)
(** * Regex: the fragment of [re] used by [MEMORY_PATTERNS]               *)
(* ===================================================================== *)

(** A backtracking matcher in continuation-passing style, with Python's
    priorities: alternatives left to right, [+] longest first, [+?]
    shortest first.  Quantifiers range over a character class, which is all
    the patterns of the program use, so the matcher is structurally
    recursive and total. *)

Module Regex.

Inductive charclass : Type :=
| AnyChar   (* [.] : every character but the newline *)
| Space.    (* [\s] *)

Definition in_class (cl : charclass) (c : ascii) : bool :=
  match cl with
  | AnyChar => negb (Text.code c =? 10)
  | Space => Text.isspace c
  end.

Inductive regex : Type :=
| Lit (l : string)
| Alt (r1 r2 : regex)
| Seq (r1 r2 : regex)
| Plus (cl : charclass) (greedy : bool)
| Group (n : nat) (r : regex).

(** Captured groups, most recent binding first. *)
Definition captures : Type := list (nat * string).

Fixpoint group (n : nat) (cs : captures) : string :=
  match cs with
  | [] => EmptyString
  | (m, s) :: cs' => if n =? m then s else group n cs'
  end.

(** [len(match.groups())]: the number of groups of the pattern. *)
Fixpoint ngroups (r : regex) : nat :=
  match r with
  | Lit _ | Plus _ _ => 0
  | Alt r1 r2 | Seq r1 r2 => ngroups r1 + ngroups r2
  | Group _ r1 => S (ngroups r1)
  end.

Fixpoint drop_prefix (p s : string) : option string :=
  match p, s with
  | EmptyString, _ => Some s
  | String a p', String b s' => if Ascii.eqb a b then drop_prefix p' s' else None
  | String _ _, EmptyString => None
  end.

Section Matcher.
Variable R : Type.

Definition orelse (a : option R) (b : unit -> option R) : option R :=
  match a with Some x => Some x | None => b tt end.

Fixpoint plus_greedy (cl : charclass) (s : string) (k : string -> option R)
  : option R :=
  match s with
  | EmptyString => None
  | String c s' =>
      if in_class cl c
      then orelse (plus_greedy cl s' k) (fun _ => k s')
      else None
  end.

Fixpoint plus_lazy (cl : charclass) (s : string) (k : string -> option R)
  : option R :=
  match s with
  | EmptyString => None
  | String c s' =>
      if in_class cl c
      then orelse (k s') (fun _ => plus_lazy cl s' k)
      else None
  end.

(** The text consumed between [s] and its suffix [s']. *)
Definition consumed (s s' : string) : string :=
  Text.take (String.length s - String.length s') s.

Fixpoint rmatch (r : regex) (s : string) (cs : captures)
         (k : string -> captures -> option R) : option R :=
  match r with
  | Lit l =>
      match drop_prefix l s with
      | Some s' => k s' cs
      | None => None
      end
  | Alt r1 r2 => orelse (rmatch r1 s cs k) (fun _ => rmatch r2 s cs k)
  | Seq r1 r2 => rmatch r1 s cs (fun s' cs' => rmatch r2 s' cs' k)
  | Plus cl true => plus_greedy cl s (fun s' => k s' cs)
  | Plus cl false => plus_lazy cl s (fun s' => k s' cs)
  | Group n r1 => rmatch r1 s cs (fun s' cs' => k s' ((n, consumed s s') :: cs'))
  end.
End Matcher.

(** [pattern.match(s)] anchored at the head of [s]: the length of the match
    and its groups. *)
Definition match_at (r : regex) (s : string) : option (nat * captures) :=
  rmatch _ r s [] (fun s' cs => Some (String.length s - String.length s', cs)).

(** [re.finditer(pattern, s)]: leftmost matches, not overlapping.  [skip]
    counts the characters of the last match still to be passed over.  Every
    pattern of the program consumes a character, so the rule of [re] for
    empty matches does not come into play. *)
Fixpoint finditer_from (r : regex) (s : string) (skip : nat) : list captures :=
  match skip with
  | S n =>
      match s with
      | EmptyString => []
      | String _ s' => finditer_from r s' n
      end
  | O =>
      match match_at r s with
      | Some (len, cs) =>
          cs :: match s with
                | EmptyString => []
                | String _ s' => finditer_from r s' (pred len)
                end
      | None =>
          match s with
          | EmptyString => []
          | String _ s' => finditer_from r s' 0
          end
      end
  end.

Definition finditer (r : regex) (s : string) : list captures :=
  finditer_from r s 0.

(** Patterns every match of which consumes a character. *)
Fixpoint consumes (r : regex) : bool :=
  match r with
  | Lit l => negb (String.eqb l "")
  | Alt r1 r2 => consumes r1 && consumes r2
  | Seq r1 r2 => consumes r1 || consumes r2
  | Plus _ _ => true
  | Group _ r1 => consumes r1
  end.

Declare Scope regex_scope.
Delimit Scope regex_scope with re.
Infix "@@" := Seq (at level 60, right associativity) : regex_scope.
Infix "|||" := Alt (at level 50, left associativity) : regex_scope.

End Regex.

(* ===================================================================== *)
(** * Effects: exceptions, the ambient world, the [Py] monad              *)
(* ===================================================================== *)

Module Effects.

(** The exception classes the program raises or catches. *)
Inductive exn : Type :=
| JSONDecodeError
| KeyError (key : string)
| TypeError
| ValueError (msg : string)
| RuntimeError (msg : string)
| BackendError (msg : string)    (* any exception of the model library *)
| FileNotFoundError
| NotADirectoryError.

(** How a call ends.  [OutOfModel] stands for a Python object that the typed
    records below cannot hold (a field annotated [str] bound to a number,
    say), or for a call whose result depends on what lies outside the
    storage directory; no [except] clause sees it. *)
Inductive Outcome (A : Type) : Type :=
| Ok (a : A)
| Raise (e : exn)
| OutOfModel.
Arguments Ok {A} a.
Arguments Raise {A} e.
Arguments OutOfModel {A}.

Definition Py (S A : Type) : Type := S -> Outcome A * S.

Definition ret {S A} (a : A) : Py S A := fun s => (Ok a, s).
Definition raise {S A} (e : exn) : Py S A := fun s => (Raise e, s).

Definition bind {S A B} (c : Py S A) (k : A -> Py S B) : Py S B :=
  fun s =>
    match c s with
    | (Ok a, s') => k a s'
    | (Raise e, s') => (Raise e, s')
    | (OutOfModel, s') => (OutOfModel, s')
    end.

Definition get {S} : Py S S := fun s => (Ok s, s).
Definition put {S} (s : S) : Py S unit := fun _ => (Ok tt, s).
Definition modify {S} (f : S -> S) : Py S unit := fun s => (Ok tt, f s).

(** [try: c  except <classes>: h] *)
Definition try_except {S A} (c : Py S A) (caught : exn -> bool) (h : Py S A)
  : Py S A :=
  fun s =>
    match c s with
    | (Raise e, s') => if caught e then h s' else (Raise e, s')
    | r => r
    end.

(** Run a computation on a component of the state. *)
Definition zoom {S T A} (proj : S -> T) (inj : T -> S -> S) (c : Py T A)
  : Py S A :=
  fun s => let (o, t) := c (proj s) in (o, inj t s).

Declare Scope py_scope.
Delimit Scope py_scope with py.
Notation "x <- c ;; k" := (bind c (fun x => k))
  (at level 100, c at next level, right associativity) : py_scope.
Notation "c ;;; k" := (bind c (fun _ => k))
  (at level 100, right associativity) : py_scope.

Open Scope py_scope.

(** [for x in xs: out.extend(body(x))] *)
Fixpoint for_extend {S A B} (xs : list A) (body : A -> Py S (list B))
  : Py S (list B) :=
  match xs with
  | [] => ret []
  | x :: xs' =>
      ys <- body x ;;
      zs <- for_extend xs' body ;;
      ret (ys ++ zs)
  end.

(** An instant: a reading of the clock. *)
Definition datetime : Type := Z.

(** What [datetime.now()] will answer and the sixteen random bytes, read
    as a number, that each [uuid.uuid4()] will draw from [os.urandom]; and
    how many answers were drawn so far. *)
Record World : Type := {
  clock : nat -> datetime;
  ticks : nat;
  urandom : nat -> N;
  drawn : nat
}.

Definition now : Py World datetime :=
  fun w => (Ok (clock w (ticks w)),
            {| clock := clock w; ticks := S (ticks w);
               urandom := urandom w; drawn := drawn w |}).

Definition hexdigits : list ascii := list_ascii_of_string "0123456789abcdef".

Definition hexdigit (n : N) : ascii := nth (N.to_nat n) hexdigits "0"%char.

(** [UUID(bytes=..., version=4)]: the variant and version bits are set. *)
Definition version4 (int : N) : N :=
  let int := N.ldiff int (N.shiftl 49152 48) in
  let int := N.lor int (N.shiftl 32768 48) in
  let int := N.ldiff int (N.shiftl 61440 64) in
  N.lor int (N.shiftl 4 76).

(** [('%032x' % int)[first : first + count]] *)
Definition hex (int : N) (first count : nat) : string :=
  string_of_list_ascii
    (map (fun i => hexdigit (N.land (N.shiftr int (N.of_nat (4 * (31 - i)))) 15))
         (seq first count)).

(** [str(uuid)]: five groups of hexadecimal digits. *)
Definition UUID_str (int : N) : string :=
  hex int 0 8 ++ "-" ++ hex int 8 4 ++ "-" ++ hex int 12 4 ++ "-"
  ++ hex int 16 4 ++ "-" ++ hex int 20 12.

(** The text of the [n]-th uuid drawn in the world [w]. *)
Definition uuids (w : World) (n : nat) : string :=
  UUID_str (version4 (urandom w n)).
Arguments uuids : simpl never.

Definition uuid4 : Py World string :=
  fun w => (Ok (uuids w (drawn w)),
            {| clock := clock w; ticks := ticks w;
               urandom := urandom w; drawn := S (drawn w) |}).

End Effects.

(* ===================================================================== *)
(** * Json: the values of [json.load] and of the [metadata] mappings      *)
(* ===================================================================== *)

Module Json.

Inductive json : Type :=
| JNull
| JBool (b : bool)
| JNum (q : Q)
| JStr (s : string)
| JArr (items : list json)
| JObj (fields : list (string * json)).

(** [d.get(k)] on the fields of an object; the first binding counts. *)
Fixpoint lookup (k : string) (fields : list (string * json)) : option json :=
  match fields with
  | [] => None
  | (k', v) :: rest => if String.eqb k k' then Some v else lookup k rest
  end.

(** [v == s] for a string literal [s]. *)
Definition is_str (s : string) (v : json) : bool :=
  match v with
  | JStr s' => String.eqb s s'
  | _ => false
  end.

Definition of_option_string (o : option string) : json :=
  match o with
  | Some s => JStr s
  | None => JNull
  end.

End Json.

(* ===================================================================== *)
(** * Entities ([agent/entities.py])                                      *)
(* ===================================================================== *)

Module Entities.
Import Effects Json.

Inductive MessageRole : Type := USER | ASSISTANT | SYSTEM.

Definition role_eqb (a b : MessageRole) : bool :=
  match a, b with
  | USER, USER | ASSISTANT, ASSISTANT | SYSTEM, SYSTEM => true
  | _, _ => false
  end.

(** [role.value] *)
Definition role_value (r : MessageRole) : string :=
  match r with
  | USER => "user"
  | ASSISTANT => "assistant"
  | SYSTEM => "system"
  end.

Definition Metadata : Type := option (list (string * json)).

(** Python slices and [list.insert], for any integer index. *)
Section PyList.
Context {A : Type}.

(** [l[i:]] *)
Definition slice_from (i : Z) (l : list A) : list A :=
  let n := Z.of_nat (length l) in
  let start := if (i <? 0)%Z then Z.max 0 (n + i) else Z.min i n in
  skipn (Z.to_nat start) l.

(** [l.insert(i, x)] *)
Definition list_insert (i : Z) (x : A) (l : list A) : list A :=
  let n := Z.of_nat (length l) in
  let pos := if (i <? 0)%Z then Z.max 0 (n + i) else Z.min i n in
  firstn (Z.to_nat pos) l ++ x :: skipn (Z.to_nat pos) l.
End PyList.

Module Message.
Record t : Type := {
  id : string;
  role : MessageRole;
  content : string;
  timestamp : datetime;
  metadata : Metadata
}.
End Message.

(** [Message(id, role, content, timestamp, metadata)] with its
    [__post_init__]: an empty id is replaced by a fresh uuid.  The test on
    the timestamp never fires on a [datetime], which is always truthy. *)
Definition new_Message (id : string) (role : MessageRole) (content : string)
           (timestamp : datetime) (metadata : Metadata) : Py World Message.t :=
  id' <- (if String.eqb id "" then uuid4 else ret id) ;;
  ret {| Message.id := id'; Message.role := role; Message.content := content;
         Message.timestamp := timestamp; Message.metadata := metadata |}.

Module Conversation.
Record t : Type := {
  id : string;
  messages : list Message.t;
  title : option string;
  created_at : datetime;
  updated_at : datetime;
  metadata : Metadata
}.
End Conversation.

Definition or_now (o : option datetime) : Py World datetime :=
  match o with
  | Some t => ret t
  | None => now
  end.

(** [Conversation(id, messages, title, created_at, updated_at, metadata)]
    with its [__post_init__]. *)
Definition new_Conversation (id : string) (messages : list Message.t)
           (title : option string) (created_at updated_at : option datetime)
           (metadata : Metadata) : Py World Conversation.t :=
  id' <- (if String.eqb id "" then uuid4 else ret id) ;;
  c <- or_now created_at ;;
  u <- or_now updated_at ;;
  ret {| Conversation.id := id'; Conversation.messages := messages;
         Conversation.title := title; Conversation.created_at := c;
         Conversation.updated_at := u; Conversation.metadata := metadata |}.

(** [conversation.add_message(message)]; the updated object is returned. *)
Definition add_message (conv : Conversation.t) (message : Message.t)
  : Py World Conversation.t :=
  t <- now ;;
  ret {| Conversation.id := Conversation.id conv;
         Conversation.messages := Conversation.messages conv ++ [message];
         Conversation.title := Conversation.title conv;
         Conversation.created_at := Conversation.created_at conv;
         Conversation.updated_at := t;
         Conversation.metadata := Conversation.metadata conv |}.

(** [conversation.get_context_messages(max_length)]:
    [self.messages[-max_length:]]. *)
Definition get_context_messages (conv : Conversation.t) (max_length : Z)
  : list Message.t :=
  slice_from (- max_length) (Conversation.messages conv).

Module ModelConfig.
Record t : Type := {
  model_name : string;
  max_length : Z;
  temperature : Q;
  top_p : Q;
  do_sample : bool;
  pad_token_id : option Z;
  eos_token_id : option Z;
  device : string
}.
End ModelConfig.

Module ChatResponse.
Record t : Type := {
  message : Message.t;
  confidence : option Q;
  processing_time : option Z;
  model_info : Metadata
}.
End ChatResponse.

(** The abstract [LanguageModel]: a backend with a state of its own, which
    may also read the clock and draw ids. *)
Class LanguageModel (L : Type) : Type := {
  is_loaded : L -> bool;
  load_model : ModelConfig.t -> Py (L * World) unit;
  generate_response :
    list Message.t -> ModelConfig.t -> Py (L * World) ChatResponse.t
}.

End Entities.

(* ===================================================================== *)
(** * Features ([agent/features.py])                                      *)
(* ===================================================================== *)

Module Features.
Import Effects Json Entities Regex.

Module MemoryItem.
Record t : Type := {
  key : string;
  value : string;
  category : string;
  created_at : datetime;
  last_accessed : datetime;
  access_count : Z;
  confidence : Q;
  context : option string
}.
End MemoryItem.

(** ** MemoryExtractor *)

Local Open Scope regex_scope.

Definition ws : regex := Plus Space true.            (* \s+ *)
Definition some_lazy : regex := Plus AnyChar false.  (* .+? *)
Definition some_greedy : regex := Plus AnyChar true. (* .+ *)

(** [MemoryExtractor.MEMORY_PATTERNS], in declaration order. *)
Definition MEMORY_PATTERNS : list (regex * string) :=
  [ (* (?:my|the)\s+(.+?)\s+(?:is|are)\s+(?:at|in|on)\s+(.+) *)
    ((Lit "my" ||| Lit "the") @@ ws @@ Group 1 some_lazy @@ ws @@
     (Lit "is" ||| Lit "are") @@ ws @@ (Lit "at" ||| Lit "in" ||| Lit "on") @@
     ws @@ Group 2 some_greedy, "location");
    (* (.+?)\s+(?:is|are)\s+(?:located|placed|stored)\s+(?:at|in|on)\s+(.+) *)
    (Group 1 some_lazy @@ ws @@ (Lit "is" ||| Lit "are") @@ ws @@
     (Lit "located" ||| Lit "placed" ||| Lit "stored") @@ ws @@
     (Lit "at" ||| Lit "in" ||| Lit "on") @@ ws @@ Group 2 some_greedy,
     "location");
    (* (?:my|the)\s+(.+?)\s+(?:is|are)\s+(.+) *)
    ((Lit "my" ||| Lit "the") @@ ws @@ Group 1 some_lazy @@ ws @@
     (Lit "is" ||| Lit "are") @@ ws @@ Group 2 some_greedy, "personal");
    (* I\s+(?:am|have|work)\s+(.+) *)
    (Lit "I" @@ ws @@ (Lit "am" ||| Lit "have" ||| Lit "work") @@ ws @@
     Group 1 some_greedy, "personal");
    (* (.+?)\s+(?:is|will be)\s+(?:on|at)\s+(.+) *)
    (Group 1 some_lazy @@ ws @@ (Lit "is" ||| Lit "will be") @@ ws @@
     (Lit "on" ||| Lit "at") @@ ws @@ Group 2 some_greedy, "schedule");
    (* (?:remember|remind)\s+(?:me|that)\s+(.+) *)
    ((Lit "remember" ||| Lit "remind") @@ ws @@ (Lit "me" ||| Lit "that") @@
     ws @@ Group 1 some_greedy, "reminder");
    (* I\s+(?:like|love|prefer|hate|dislike)\s+(.+) *)
    (Lit "I" @@ ws @@
     (Lit "like" ||| Lit "love" ||| Lit "prefer" ||| Lit "hate" ||| Lit "dislike")
     @@ ws @@ Group 1 some_greedy, "preference") ].

Local Close Scope regex_scope.

(** The body of the inner loop of [_extract_from_text]: one match of one
    rule. *)
Definition memory_of_match (text : string) (pattern : regex)
           (category : string) (m : captures) : Py World (list MemoryItem.t) :=
  if 2 <=? ngroups pattern then
    let key := Text.strip (group 1 m) in
    let value := Text.strip (group 2 m) in
    created <- now ;;
    accessed <- now ;;
    ret [ {| MemoryItem.key := key; MemoryItem.value := value;
             MemoryItem.category := category;
             MemoryItem.created_at := created;
             MemoryItem.last_accessed := accessed;
             MemoryItem.access_count := 0%Z;
             MemoryItem.confidence := 1%Q;
             MemoryItem.context := Some text |} ]
  else ret [].

(** [MemoryExtractor._extract_from_text] *)
Definition _extract_from_text (text : string) : Py World (list MemoryItem.t) :=
  let text_lower := Text.lower text in
  for_extend MEMORY_PATTERNS (fun rule =>
    let (pattern, category) := rule in
    for_extend (finditer pattern text_lower)
               (memory_of_match text pattern category)).

(** [MemoryExtractor.extract_memories] *)
Definition extract_memories (conversation : Conversation.t)
  : Py World (list MemoryItem.t) :=
  for_extend (Conversation.messages conversation) (fun message =>
    if role_eqb (Message.role message) USER
    then _extract_from_text (Message.content message)
    else ret []).

(** ** ConversationAnalyzer *)

Module Analysis.
Record t : Type := {
  message_count : nat;
  user_message_count : nat;
  assistant_message_count : nat;
  conversation_length : nat;
  topics : list string;
  sentiment : string;
  questions_asked : nat;
  duration : Q
}.
End Analysis.

Definition all_content (messages : list Message.t) : string :=
  Text.join " " (map Message.content messages).

Definition topic_keywords : list (string * list string) :=
  [ ("work", ["work"; "job"; "office"; "meeting"; "project"; "deadline"]);
    ("personal", ["family"; "home"; "personal"; "life"; "health"]);
    ("technology", ["computer"; "software"; "app"; "tech"; "digital"]);
    ("schedule", ["time"; "date"; "schedule"; "appointment"; "calendar"]);
    ("location", ["place"; "location"; "address"; "where"; "room"]);
    ("memory", ["remember"; "recall"; "memory"; "forget"; "stored"]) ].

(** [ConversationAnalyzer._extract_topics] *)
Definition _extract_topics (messages : list Message.t) : list string :=
  let text := Text.lower (all_content messages) in
  flat_map (fun entry : string * list string =>
              let (topic, keywords) := entry in
              if existsb (fun keyword => Text.contains keyword text) keywords
              then [topic] else [])
           topic_keywords.

Definition positive_words : list string :=
  ["good"; "great"; "excellent"; "amazing"; "wonderful"; "fantastic";
   "love"; "like"; "happy"; "pleased"].

Definition negative_words : list string :=
  ["bad"; "terrible"; "awful"; "hate"; "dislike"; "angry"; "frustrated";
   "disappointed"; "sad"].

Definition count_present (words : list string) (text : string) : nat :=
  length (filter (fun word => Text.contains word text) words).

(** [ConversationAnalyzer._analyze_sentiment] *)
Definition _analyze_sentiment (messages : list Message.t) : string :=
  match messages with
  | [] => "neutral"
  | _ =>
      let text := Text.lower (all_content messages) in
      let positive_count := count_present positive_words text in
      let negative_count := count_present negative_words text in
      if negative_count <? positive_count then "positive"
      else if positive_count <? negative_count then "negative"
      else "neutral"
  end.

(** [ConversationAnalyzer._count_questions] *)
Fixpoint _count_questions (messages : list Message.t) : nat :=
  match messages with
  | [] => 0
  | message :: rest =>
      Text.count "?"%char (Message.content message) + _count_questions rest
  end.

Definition has_role (r : MessageRole) (m : Message.t) : bool :=
  role_eqb (Message.role m) r.

(** [ConversationAnalyzer.analyze_conversation]; the clock counts seconds,
    so the duration in minutes is the difference over 60. *)
Definition analyze_conversation (conversation : Conversation.t) : Analysis.t :=
  let messages := Conversation.messages conversation in
  let user_messages := filter (has_role USER) messages in
  let assistant_messages := filter (has_role ASSISTANT) messages in
  {| Analysis.message_count := length messages;
     Analysis.user_message_count := length user_messages;
     Analysis.assistant_message_count := length assistant_messages;
     Analysis.conversation_length := String.length (all_content messages);
     Analysis.topics := _extract_topics messages;
     Analysis.sentiment := _analyze_sentiment user_messages;
     Analysis.questions_asked := _count_questions user_messages;
     Analysis.duration :=
       Qmake (Conversation.updated_at conversation
              - Conversation.created_at conversation) 60 |}.

(** ** ContextManager *)

(** [min(a, b)] of Python: [b] only when it is strictly smaller. *)
Definition py_min (a b : Q) : Q := if Qle_bool a b then a else b.

Definition with_confidence (memory : MemoryItem.t) (c : Q) : MemoryItem.t :=
  {| MemoryItem.key := MemoryItem.key memory;
     MemoryItem.value := MemoryItem.value memory;
     MemoryItem.category := MemoryItem.category memory;
     MemoryItem.created_at := MemoryItem.created_at memory;
     MemoryItem.last_accessed := MemoryItem.last_accessed memory;
     MemoryItem.access_count := MemoryItem.access_count memory;
     MemoryItem.confidence := c;
     MemoryItem.context := MemoryItem.context memory |}.

(** The score of one memory, as the loop body of
    [_find_relevant_memories] accumulates it. *)
Definition relevance_score (query_lower : string) (memory : MemoryItem.t) : nat :=
  let score := 0 in
  let score :=
    if Text.contains (Text.lower (MemoryItem.key memory)) query_lower
    then score + 2 else score in
  let score :=
    if existsb (fun word => Text.contains word query_lower)
               (Text.split (Text.lower (MemoryItem.value memory)))
    then score + 1 else score in
  let score :=
    if Text.contains (MemoryItem.category memory) query_lower
    then score + 1 else score in
  score.

(** [score / 3.0] *)
Definition thirds (score : nat) : Q := Qmake (Z.of_nat score) 3.

(** The loop of [_find_relevant_memories].  The program writes the new
    confidence into the pool's own objects; the list returned holds those
    same objects. *)
Fixpoint collect_relevant (query_lower : string) (memories : list MemoryItem.t)
  : list MemoryItem.t :=
  match memories with
  | [] => []
  | memory :: rest =>
      let score := relevance_score query_lower memory in
      if 0 <? score
      then with_confidence memory (py_min 1 (thirds score))
             :: collect_relevant query_lower rest
      else collect_relevant query_lower rest
  end.

(** [l.sort(key=key, reverse=True)]: descending and stable, elements with
    equal keys keep their order. *)
Section SortReverse.
Context {A : Type} (key : A -> Q).

Fixpoint insert_reverse (x : A) (l : list A) : list A :=
  match l with
  | [] => [x]
  | y :: l' =>
      if Qle_bool (key y) (key x) then x :: l
      else y :: insert_reverse x l'
  end.

Definition sort_reverse (l : list A) : list A :=
  fold_right insert_reverse [] l.
End SortReverse.

(** [ContextManager._find_relevant_memories] *)
Definition _find_relevant_memories (query : string)
           (memories : list MemoryItem.t) : list MemoryItem.t :=
  let query_lower := Text.lower query in
  let relevant := collect_relevant query_lower memories in
  sort_reverse MemoryItem.confidence relevant.

Definition memory_message (memory : MemoryItem.t) : Py World Message.t :=
  t <- now ;;
  new_Message "" SYSTEM
    ("Memory: " ++ MemoryItem.key memory ++ " is " ++ MemoryItem.value memory)
    t
    (Some [("type", JStr "memory");
           ("confidence", JNum (MemoryItem.confidence memory))]).

(** The loop [for memory in relevant_memories[:3]: ... insert(-1, ...)]. *)
Fixpoint inject_memories (relevant : list MemoryItem.t)
         (context_messages : list Message.t) : Py World (list Message.t) :=
  match relevant with
  | [] => ret context_messages
  | memory :: rest =>
      m <- memory_message memory ;;
      inject_memories rest (list_insert (-1) m context_messages)
  end.

(** [ContextManager.get_relevant_context]; [max_context_length] is the
    attribute set by the constructor. *)
Definition get_relevant_context (max_context_length : Z)
           (conversation : Conversation.t) (current_message : string)
           (memories : option (list MemoryItem.t)) : Py World (list Message.t) :=
  let context_messages := get_context_messages conversation max_context_length in
  match memories with
  | Some ((_ :: _) as pool) =>
      let relevant_memories := _find_relevant_memories current_message pool in
      inject_memories (firstn 3 relevant_memories) context_messages
  | _ => ret context_messages
  end.

End Features.

(* ===================================================================== *)
(** * Infrastructure: [JSONFileRepository]                                *)
(* ===================================================================== *)

Module Infrastructure.
Import Effects Json Entities.

(** [datetime.isoformat] and [datetime.fromisoformat]; the latter answers
    [None] where Python raises [ValueError]. *)
Class DateCodec : Type := {
  isoformat : datetime -> string;
  fromisoformat : string -> option datetime
}.

(** The text of a file, seen through [json.load]: either it does not parse
    ([JSONDecodeError]) or it is the document [json.dump] wrote. *)
Inductive FileText : Type :=
| Garbled
| Document (data : json).

(** A regular file: its name, the time of its last modification
    ([stat().st_mtime]) and its text. *)
Module File.
Record t : Type := {
  name : string;
  st_mtime : Q;
  text : FileText
}.
End File.

(** The storage directory [self.storage_path].  It holds regular files
    only (the program makes no directory inside it), no two of one name,
    listed in the order in which [glob] yields them; [mtimes] is the
    modification time the file system will stamp on each of the writes to
    come, [writes] counts the writes made so far. *)
Record Directory : Type := {
  files : list File.t;
  mtimes : nat -> Q;
  writes : nat
}.

Definition named (name : string) (file : File.t) : bool :=
  String.eqb name (File.name file).

(** [f"{conversation_id}.json"] *)
Definition file_name (conversation_id : string) : string :=
  conversation_id ++ ".json".

(** [c in s] for a character. *)
Fixpoint mentions (c : ascii) (s : string) : bool :=
  match s with
  | EmptyString => false
  | String d s' => Ascii.eqb c d || mentions c s'
  end.

(** [s.split(sep)] for a one-character separator. *)
Fixpoint split_at (sep : ascii) (s : string) : list string :=
  match s with
  | EmptyString => [EmptyString]
  | String c s' =>
      if Ascii.eqb c sep then EmptyString :: split_at sep s'
      else match split_at sep s' with
           | part :: parts => String c part :: parts
           | [] => [String c EmptyString]
           end
  end.

Definition NUL : ascii := ascii_of_nat 0.

(** The longest file name the file system takes. *)
Definition NAME_MAX : nat := 255.

(** The components [pathlib] keeps of a relative path: empty ones and "."
    are dropped, ".." stays. *)
Definition kept (part : string) : bool :=
  negb (String.eqb part "" || String.eqb part ".").

(** Where [self.storage_path / file] leads.  [Entry name] is the file
    [name] of the storage directory itself; [Through name] is a path that
    goes on below the entry [name], which can only be a regular file or
    missing; [Unopenable] is a path with a NUL character, which no system
    call takes; [Outside] is everything the directory does not decide: an
    absolute [file], which replaces the storage path, a path through "..",
    and a path longer than [NAME_MAX]. *)
Inductive Place : Type :=
| Entry (name : string)
| Through (name : string)
| Unopenable
| Outside.

Definition locate (file : string) : Place :=
  if mentions NUL file then Unopenable
  else if (NAME_MAX <? String.length file) || Text.startswith "/" file
  then Outside
  else
    match filter kept (split_at "/" file) with
    | [] => Outside
    | name :: more =>
        if String.eqb name ".." then Outside
        else match more with
             | [] => Entry name
             | _ :: _ => Through name
             end
    end.
Arguments locate : simpl never.

(** [path.exists()] and, where it holds, the text [open(path, 'r')] gives:
    [None] stands for a path that does not exist, which includes one that
    goes through a regular file or holds a NUL character. *)
Definition read_file (file : string) (dir : Directory)
  : Outcome (option FileText) :=
  match locate file with
  | Entry name => Ok (option_map File.text (find (named name) (files dir)))
  | Through _ | Unopenable => Ok None
  | Outside => OutOfModel
  end.

(** [open(path, 'w')] followed by the write.  The file is created or
    replaced and stamped with the time of the write.  Where [glob] will
    list it is the file system's choice and matters to the program only
    among files of equal modification time; here it comes last.  A path
    below a missing entry raises [FileNotFoundError], one below a regular
    file [NotADirectoryError], one with a NUL character [ValueError];
    nothing is written then. *)
Definition write_file (file : string) (text : FileText) : Py Directory unit :=
  fun dir =>
    match locate file with
    | Entry name =>
        (Ok tt,
         {| files :=
              filter (fun f => negb (named name f)) (files dir)
              ++ [ {| File.name := name;
                      File.st_mtime := mtimes dir (writes dir);
                      File.text := text |} ];
            mtimes := mtimes dir;
            writes := S (writes dir) |})
    | Through name =>
        if existsb (named name) (files dir)
        then (Raise NotADirectoryError, dir)
        else (Raise FileNotFoundError, dir)
    | Unopenable => (Raise (ValueError "embedded null byte"), dir)
    | Outside => (OutOfModel, dir)
    end.

Definition json_of_metadata (m : Metadata) : json :=
  match m with
  | Some fields => JObj fields
  | None => JNull
  end.

Section Codec.
Context {codec : DateCodec}.

Definition message_to_dict (msg : Message.t) : json :=
  JObj [ ("id", JStr (Message.id msg));
         ("role", JStr (role_value (Message.role msg)));
         ("content", JStr (Message.content msg));
         ("timestamp", JStr (isoformat (Message.timestamp msg)));
         ("metadata", json_of_metadata (Message.metadata msg)) ].

(** [JSONFileRepository._conversation_to_dict] *)
Definition _conversation_to_dict (conversation : Conversation.t) : json :=
  JObj [ ("id", JStr (Conversation.id conversation));
         ("title", of_option_string (Conversation.title conversation));
         ("created_at", JStr (isoformat (Conversation.created_at conversation)));
         ("updated_at", JStr (isoformat (Conversation.updated_at conversation)));
         ("metadata", json_of_metadata (Conversation.metadata conversation));
         ("messages",
          JArr (map message_to_dict (Conversation.messages conversation))) ].

(** [v[key]] for a string key: only a dict has it. *)
Definition item (key : string) (v : json) : Py World json :=
  match v with
  | JObj fields =>
      match lookup key fields with
      | Some x => ret x
      | None => raise (KeyError key)
      end
  | _ => raise TypeError
  end.

(** [v.get(key)] on a value already known to be a dict. *)
Definition get_item (key : string) (v : json) : json :=
  match v with
  | JObj fields =>
      match lookup key fields with
      | Some x => x
      | None => JNull
      end
  | _ => JNull
  end.

(** [for x in v]: the elements of an array, the keys of a dict, the
    characters of a string; nothing else iterates. *)
Definition iterate (v : json) : Py World (list json) :=
  match v with
  | JArr items => ret items
  | JObj fields => ret (map (fun kv => JStr (fst kv)) fields)
  | JStr s => ret (map (fun c => JStr (String c EmptyString)) (list_ascii_of_string s))
  | _ => raise TypeError
  end.

(** [MessageRole(v)] *)
Definition MessageRole_of (v : json) : Py World MessageRole :=
  if is_str "user" v then ret USER
  else if is_str "assistant" v then ret ASSISTANT
  else if is_str "system" v then ret SYSTEM
  else raise (ValueError "not a valid MessageRole").

(** [datetime.fromisoformat(v)] *)
Definition parse_datetime (v : json) : Py World datetime :=
  match v with
  | JStr s =>
      match fromisoformat s with
      | Some t => ret t
      | None => raise (ValueError "Invalid isoformat string")
      end
  | _ => raise TypeError
  end.

(** [not v] *)
Definition falsy (v : json) : bool :=
  match v with
  | JNull | JBool false | JStr EmptyString | JArr [] | JObj [] => true
  | JNum q => Qeq_bool q 0
  | _ => false
  end.

(** The readings of a value at the annotated types; [None] when the
    value has another dynamic type. *)
Definition as_str (v : json) : option string :=
  match v with JStr s => Some s | _ => None end.

Definition as_optional_str (v : json) : option (option string) :=
  match v with
  | JNull => Some None
  | JStr s => Some (Some s)
  | _ => None
  end.

Definition as_metadata (v : json) : option Metadata :=
  match v with
  | JNull => Some None
  | JObj fields => Some (Some fields)
  | _ => None
  end.

(** The id after [__post_init__]: a falsy one is replaced. *)
Definition post_init_id (v : json) : Py World (option string) :=
  if falsy v then (u <- uuid4 ;; ret (Some u)) else ret (as_str v).

(** One element of the comprehension of [_dict_to_conversation]. *)
Definition message_of_dict (msg : json) : Py World (option Message.t) :=
  id <- item "id" msg ;;
  role_v <- item "role" msg ;;
  role <- MessageRole_of role_v ;;
  content <- item "content" msg ;;
  timestamp_v <- item "timestamp" msg ;;
  timestamp <- parse_datetime timestamp_v ;;
  let metadata := get_item "metadata" msg in
  id' <- post_init_id id ;;
  ret (match id', as_str content, as_metadata metadata with
       | Some i, Some c, Some md =>
           Some {| Message.id := i; Message.role := role;
                   Message.content := c; Message.timestamp := timestamp;
                   Message.metadata := md |}
       | _, _, _ => None
       end).

Fixpoint messages_of_dicts (msgs : list json)
  : Py World (list (option Message.t)) :=
  match msgs with
  | [] => ret []
  | msg :: rest =>
      m <- message_of_dict msg ;;
      ms <- messages_of_dicts rest ;;
      ret (m :: ms)
  end.

Fixpoint all_typed {A} (l : list (option A)) : option (list A) :=
  match l with
  | [] => Some []
  | Some x :: l' => option_map (cons x) (all_typed l')
  | None :: _ => None
  end.

(** [JSONFileRepository._dict_to_conversation].  Exceptions are raised
    in Python's order of evaluation; a record that goes through without
    one but binds a field to a value of another type is [OutOfModel]. *)
Definition _dict_to_conversation (data : json) : Py World Conversation.t :=
  msgs_v <- item "messages" data ;;
  msgs <- iterate msgs_v ;;
  messages <- messages_of_dicts msgs ;;
  id <- item "id" data ;;
  title <- item "title" data ;;
  created_v <- item "created_at" data ;;
  created_at <- parse_datetime created_v ;;
  updated_v <- item "updated_at" data ;;
  updated_at <- parse_datetime updated_v ;;
  let metadata := get_item "metadata" data in
  id' <- post_init_id id ;;
  match all_typed messages, id', as_optional_str title, as_metadata metadata with
  | Some ms, Some i, Some t, Some md =>
      ret {| Conversation.id := i; Conversation.messages := ms;
             Conversation.title := t; Conversation.created_at := created_at;
             Conversation.updated_at := updated_at;
             Conversation.metadata := md |}
  | _, _, _, _ => fun w => (OutOfModel, w)
  end.

(** [json.load(f)] *)
Definition json_load (text : FileText) : Py World json :=
  match text with
  | Garbled => raise JSONDecodeError
  | Document data => ret data
  end.

(** [except (json.JSONDecodeError, KeyError)] *)
Definition decode_or_key (e : exn) : bool :=
  match e with
  | JSONDecodeError | KeyError _ => true
  | _ => false
  end.

(** [JSONFileRepository.save_conversation] *)
Definition save_conversation (conversation : Conversation.t)
  : Py Directory unit :=
  write_file (file_name (Conversation.id conversation))
             (Document (_conversation_to_dict conversation)).

(** [JSONFileRepository.get_conversation]; the directory is only read. *)
Definition get_conversation (dir : Directory) (conversation_id : string)
  : Py World (option Conversation.t) :=
  match read_file (file_name conversation_id) dir with
  | Ok None => ret None
  | Ok (Some text) =>
      try_except
        (data <- json_load text ;;
         c <- _dict_to_conversation data ;;
         ret (Some c))
        decode_or_key
        (ret None)
  | Raise e => raise e
  | OutOfModel => fun w => (OutOfModel, w)
  end.

(** [l[:limit]] *)
Definition slice_to {A} (limit : Z) (l : list A) : list A :=
  let n := Z.of_nat (length l) in
  let stop := if (limit <? 0)%Z then Z.max 0 (n + limit) else Z.min limit n in
  firstn (Z.to_nat stop) l.

(** The files [glob("*.json")] selects. *)
Definition is_json_file (file : File.t) : bool :=
  Text.endswith ".json" (File.name file).

(** The loop of [list_conversations] over the files it opens. *)
Fixpoint load_each (json_files : list File.t)
  : Py World (list Conversation.t) :=
  match json_files with
  | [] => ret []
  | file_path :: rest =>
      found <- try_except
                 (data <- json_load (File.text file_path) ;;
                  c <- _dict_to_conversation data ;;
                  ret [c])
                 decode_or_key
                 (ret []) ;;
      others <- load_each rest ;;
      ret (found ++ others)
  end.

(** [JSONFileRepository.list_conversations]: the files are sorted by
    modification time, latest first, by the stable [list.sort]. *)
Definition list_conversations (dir : Directory) (limit : Z)
  : Py World (list Conversation.t) :=
  let json_files := filter is_json_file (files dir) in
  let json_files := Features.sort_reverse File.st_mtime json_files in
  load_each (slice_to limit json_files).

End Codec.

(** The line break of ["\n".join(...)]. *)
Definition newline : string := String (ascii_of_nat 10) EmptyString.

(** [HuggingFaceLanguageModel._messages_to_prompt] *)
Module HuggingFaceLanguageModel.

Definition prompt_part (message : Message.t) : string :=
  match Message.role message with
  | SYSTEM => "System: " ++ Message.content message
  | USER => "Human: " ++ Message.content message
  | ASSISTANT => "Assistant: " ++ Message.content message
  end.

Definition _messages_to_prompt (messages : list Message.t) : string :=
  Text.join newline (map prompt_part messages ++ ["Assistant:"]).

End HuggingFaceLanguageModel.

(** [HuggingFacePipelineModel._messages_to_prompt], the prompt of the
    fallback call: system messages get no line. *)
Module HuggingFacePipelineModel.

Definition prompt_parts (message : Message.t) : list string :=
  match Message.role message with
  | USER => [("User: " ++ Message.content message)%string]
  | ASSISTANT => [("Assistant: " ++ Message.content message)%string]
  | SYSTEM => []
  end.

Definition _messages_to_prompt (messages : list Message.t) : string :=
  Text.join newline (flat_map prompt_parts messages ++ ["Assistant:"]).

End HuggingFacePipelineModel.

End Infrastructure.

(* ===================================================================== *)
(** * Use cases ([agent/use_cases.py])                                    *)
(* ===================================================================== *)

Module UseCases.
Import Effects Json Entities Infrastructure.

(** What a turn runs on: the storage directory of the repository wired in
    by [AliceChatbot], the backend, the world, and two observers: [working]
    is the value of the local variable [conversation] of [send_message],
    [requests] lists the contexts handed to [generate_response]. *)
Record System (L : Type) : Type := {
  disk : Directory;
  model : L;
  world : World;
  working : option Conversation.t;
  requests : list (list Message.t)
}.
Arguments disk {L} _.
Arguments model {L} _.
Arguments world {L} _.
Arguments working {L} _.
Arguments requests {L} _.

Section Turn.
Context {L : Type} {backend : LanguageModel L} {codec : DateCodec}.

Definition in_world {A} (c : Py World A) : Py (System L) A :=
  zoom world
       (fun w s => {| disk := disk s; model := model s; world := w;
                      working := working s; requests := requests s |})
       c.

Definition in_model {A} (c : Py (L * World) A) : Py (System L) A :=
  zoom (fun s => (model s, world s))
       (fun mw s => {| disk := disk s; model := fst mw; world := snd mw;
                       working := working s; requests := requests s |})
       c.

Definition hold (c : option Conversation.t) : Py (System L) unit :=
  modify (fun s => {| disk := disk s; model := model s; world := world s;
                      working := c; requests := requests s |}).

Definition log_request (ctx : list Message.t) : Py (System L) unit :=
  modify (fun s => {| disk := disk s; model := model s; world := world s;
                      working := working s;
                      requests := requests s ++ [ctx] |}).

Definition in_disk {A} (c : Py Directory A) : Py (System L) A :=
  zoom disk
       (fun d s => {| disk := d; model := model s; world := world s;
                      working := working s; requests := requests s |})
       c.

Definition save (c : Conversation.t) : Py (System L) unit :=
  in_disk (save_conversation c).

Definition with_processing_time (r : ChatResponse.t) (t : Z) : ChatResponse.t :=
  {| ChatResponse.message := ChatResponse.message r;
     ChatResponse.confidence := ChatResponse.confidence r;
     ChatResponse.processing_time := Some t;
     ChatResponse.model_info := ChatResponse.model_info r |}.

(** [ChatbotUseCase.send_message] *)
Definition send_message (default_config : ModelConfig.t)
           (conversation_id user_message : string)
           (config : option ModelConfig.t) : Py (System L) ChatResponse.t :=
  hold None ;;;
  start_time <- in_world now ;;
  s <- get ;;
  found <- in_world (get_conversation (disk s) conversation_id) ;;
  match found with
  | None =>
      raise (ValueError ("Conversation " ++ conversation_id ++ " not found"))
  | Some conversation =>
      hold (Some conversation) ;;;
      t <- in_world now ;;
      user_msg <- in_world (new_Message "" USER user_message t None) ;;
      conversation <- in_world (add_message conversation user_msg) ;;
      hold (Some conversation) ;;;
      let model_config :=
        match config with Some c => c | None => default_config end in
      s <- get ;;
      (if is_loaded (model s) then ret tt
       else in_model (load_model model_config)) ;;;
      let context_messages := get_context_messages conversation 10 in
      log_request context_messages ;;;
      response <- in_model (generate_response context_messages model_config) ;;
      end_time <- in_world now ;;
      let response := with_processing_time response (end_time - start_time) in
      conversation <-
        in_world (add_message conversation (ChatResponse.message response)) ;;
      hold (Some conversation) ;;;
      save conversation ;;;
      ret response
  end.


Definition memory_content (key value : string) : string :=
  "MEMORY: " ++ key ++ " = " ++ value.

Definition memory_id (key : string) : string := "memory_" ++ key.

(** [MemoryUseCase.store_memory] *)
Definition store_memory (key value : string) (context : option string)
  : Py (System L) unit :=
  t <- in_world now ;;
  message <- in_world
    (new_Message "" SYSTEM (memory_content key value) t
       (Some [("type", JStr "memory"); ("key", JStr key);
              ("context", of_option_string context)])) ;;
  memory_conversation <- in_world
    (new_Conversation (memory_id key) [message]
       (Some ("Memory: " ++ key)%string) None None
       (Some [("type", JStr "memory")])) ;;
  save memory_conversation.



(** [ChatbotUseCase.start_conversation] *)
Definition start_conversation (system_prompt : option string)
  : Py (System L) Conversation.t :=
  conversation <- in_world
    (new_Conversation "" [] (Some "New Conversation") None None None) ;;
  conversation <-
    match system_prompt with
    | Some ((String _ _) as prompt) =>
        t <- in_world now ;;
        system_message <- in_world (new_Message "" SYSTEM prompt t None) ;;
        in_world (add_message conversation system_message)
    | _ => ret conversation
    end ;;
  save conversation ;;;
  ret conversation.

End Turn.

End UseCases.

(* ===================================================================== *)
(** * Adapters: [ChatbotController] ([agent/adapters.py])                 *)
(* ===================================================================== *)

Module Adapters.
Import Effects Json Entities Infrastructure UseCases.

(** The dictionary a controller method returns.  [error] holds the
    exception whose text [str(e)] the program reports. *)
Inductive Reply : Type :=
| Success (response : string) (conversation_id : string)
          (processing_time : option Z) (model_info : Metadata)
| Stored (message : string)
| Failure (error : exn) (conversation_id : option string).

(** The controller: the system its use cases act on and the attribute
    [current_conversation_id]. *)
Record Controller (L : Type) : Type := {
  system : System L;
  current_conversation_id : option string
}.
Arguments system {L} _.
Arguments current_conversation_id {L} _.

Section Controller.
Context {L : Type} {backend : LanguageModel L} {codec : DateCodec}.
Variable default_config : ModelConfig.t.

Definition in_system {A} (c : Py (System L) A) : Py (Controller L) A :=
  zoom system
       (fun s st => {| system := s;
                       current_conversation_id := current_conversation_id st |})
       c.

(** [a or b] on optional strings: [None] and the empty string are falsy. *)
Definition or_id (a b : option string) : option string :=
  match a with
  | Some (String _ _) => a
  | _ => b
  end.

(** [ChatbotController.start_new_conversation] *)
Definition start_new_conversation (system_prompt : option string)
  : Py (Controller L) string :=
  conversation <- in_system (start_conversation system_prompt) ;;
  modify (fun st => {| system := system st;
                       current_conversation_id :=
                         Some (Conversation.id conversation) |}) ;;;
  ret (Conversation.id conversation).

(** [ChatbotController.send_message] *)
Definition send_message (message : string) (conversation_id : option string)
           (model_config : option ModelConfig.t) : Py (Controller L) Reply :=
  st <- get ;;
  let target_conversation_id :=
    or_id conversation_id (current_conversation_id st) in
  target_conversation_id <-
    match target_conversation_id with
    | Some ((String _ _) as id) => ret id
    | _ => start_new_conversation None
    end ;;
  fun st =>
    match in_system (UseCases.send_message default_config
                       target_conversation_id message model_config) st with
    | (Ok response, st') =>
        (Ok (Success (Message.content (ChatResponse.message response))
                     target_conversation_id
                     (ChatResponse.processing_time response)
                     (ChatResponse.model_info response)), st')
    | (Raise e, st') => (Ok (Failure e (Some target_conversation_id)), st')
    | (OutOfModel, st') => (OutOfModel, st')
    end.

(** [ChatbotController.store_memory] *)
Definition store_memory (key value : string) (context : option string)
  : Py (Controller L) Reply :=
  fun st =>
    match in_system (UseCases.store_memory key value context) st with
    | (Ok _, st') => (Ok (Stored ("Memory stored: " ++ key)%string), st')
    | (Raise e, st') => (Ok (Failure e None), st')
    | (OutOfModel, st') => (OutOfModel, st')
    end.

End Controller.

End Adapters.

(* ===================================================================== *)
(** * Views used by the statements, and concrete inputs                   *)
(* ===================================================================== *)

Module Views.
Import Effects Json Entities Regex Features Infrastructure UseCases.

(** What is left of a memory item once its timestamps are put aside. *)
Definition Triple : Type := (string * string * string)%type.

Definition triple (m : MemoryItem.t) : Triple :=
  (MemoryItem.key m, MemoryItem.value m, MemoryItem.category m).

(** The triples one rule contributes for a lower-cased text. *)
Definition triples_of_rule (text_lower : string) (rule : regex * string)
  : list Triple :=
  let (pattern, category) := rule in
  if 2 <=? ngroups pattern
  then map (fun m => (Text.strip (group 1 m), Text.strip (group 2 m), category))
           (finditer pattern text_lower)
  else [].

Definition triples_of_text (text : string) : list Triple :=
  flat_map (triples_of_rule (Text.lower text)) MEMORY_PATTERNS.

Definition triples_of (conversation : Conversation.t) : list Triple :=
  flat_map (fun message =>
              if role_eqb (Message.role message) USER
              then triples_of_text (Message.content message) else [])
           (Conversation.messages conversation).

(** The contents of the user messages, in order. *)
Definition user_contents (conversation : Conversation.t) : list string :=
  map Message.content (filter (has_role USER) (Conversation.messages conversation)).

(** [c] always returns, and whatever the world, the items it returns have
    the triples [T]. *)
Definition stamps (c : Py World (list MemoryItem.t)) (T : list Triple) : Prop :=
  forall w, exists l w', c w = (Ok l, w') /\ map triple l = T.

(** The claim C1 as the spec words it: a single item, of category
    location, whose key contains "wallet" and whose value contains "desk". *)
Definition yields_single_location (conversation : Conversation.t) (w : World)
  : Prop :=
  exists m w',
    extract_memories conversation w = (Ok [m], w') /\
    MemoryItem.category m = "location" /\
    Text.contains "wallet" (MemoryItem.key m) = true /\
    Text.contains "desk" (MemoryItem.value m) = true.

(** The raw score in closed form: the three bonuses added up.  The key and
    the tokens of the value are case-folded, the category is taken as it is
    stored, and all three are looked for in the case-folded query. *)
Definition raw_score (query : string) (m : MemoryItem.t) : nat :=
  let q := Text.lower query in
  (if Text.contains (Text.lower (MemoryItem.key m)) q then 2 else 0)
  + (if existsb (fun token => Text.contains token q)
                (Text.split (Text.lower (MemoryItem.value m)))
     then 1 else 0)
  + (if Text.contains (MemoryItem.category m) q then 1 else 0).

(** The raw score as C3 words it: the key, the tokens of the value and
    the category name are case-folded and looked for in the query. *)
Definition claimed_score (query : string) (m : MemoryItem.t) : nat :=
  (if Text.contains (Text.lower (MemoryItem.key m)) query then 2 else 0)
  + (if existsb (fun token => Text.contains token query)
                (Text.split (Text.lower (MemoryItem.value m)))
     then 1 else 0)
  + (if Text.contains (Text.lower (MemoryItem.category m)) query then 1 else 0).

(** The same score, looked for in the case-folded query. *)
Definition folded_score (query : string) (m : MemoryItem.t) : nat :=
  claimed_score (Text.lower query) m.

(** The item with its confidence set from the folded score. *)
Definition scored (query : string) (m : MemoryItem.t) : MemoryItem.t :=
  with_confidence m (py_min 1 (thirds (folded_score query m))).

(** A category name in lower case, as the names of the rule table are. *)
Definition lower_case_category (m : MemoryItem.t) : Prop :=
  Text.lower (MemoryItem.category m) = MemoryItem.category m.

(** [min(1.0, score / 3.0)] *)
Definition normalized (score : nat) : Q := py_min 1 (thirds score).

Definition rescored (query : string) (m : MemoryItem.t) : MemoryItem.t :=
  with_confidence m (normalized (raw_score query m)).

Definition positive (query : string) (m : MemoryItem.t) : bool :=
  0 <? raw_score query m.

Definition same_confidence (c : Q) (m : MemoryItem.t) : bool :=
  Qeq_bool (MemoryItem.confidence m) c.

(** Descending order of a key. *)
Definition descending {A} (key : A -> Q) (a b : A) : Prop :=
  (key b <= key a)%Q.

(** Descending order of confidence. *)
Definition ranks_before : MemoryItem.t -> MemoryItem.t -> Prop :=
  descending MemoryItem.confidence.

(** "Exactly the items with positive raw score", with the score of C3: a
    pool item is returned if and only if its score is positive. *)
Definition returns_exactly_claimed (query : string) (pool : list MemoryItem.t)
  : Prop :=
  forall m, In m pool ->
            (0 < claimed_score query m <->
             exists r, In r (_find_relevant_memories query pool)
                       /\ triple r = triple m).

(** [f"Memory: {memory.key} is {memory.value}"] *)
Definition memory_text (memory : MemoryItem.t) : string :=
  "Memory: " ++ MemoryItem.key memory ++ " is " ++ MemoryItem.value memory.

(** A synthesized memory message: system role, tagged as a memory. *)
Definition is_memory_message (m : Message.t) : Prop :=
  Message.role m = SYSTEM /\
  exists c, Message.metadata m
            = Some [("type", JStr "memory"); ("confidence", JNum c)].

(** The pool after ranking and truncation, as [get_relevant_context] uses
    it. *)
Definition retained (current_message : string)
           (memories : option (list MemoryItem.t)) : list MemoryItem.t :=
  match memories with
  | Some pool => firstn 3 (_find_relevant_memories current_message pool)
  | None => []
  end.

(** The loop of test_conversation_context: each text becomes a user message
    appended to the conversation. *)
Fixpoint append_user_messages (contents : list string) (conv : Conversation.t)
  : Py World Conversation.t :=
  match contents with
  | [] => ret conv
  | content :: rest =>
      t <- now ;;
      message <- new_Message "" USER content t None ;;
      conv' <- add_message conv message ;;
      append_user_messages rest conv'
  end.

(** The number of '?' characters in the contents of the given messages. *)
Definition question_marks (messages : list Message.t) : nat :=
  list_sum (map (fun m => Text.count "?"%char (Message.content m)) messages).

(** A message without its id. *)
Definition Message_text (m : Message.t)
  : MessageRole * string * datetime * Metadata :=
  (Message.role m, Message.content m, Message.timestamp m, Message.metadata m).

(** Two conversations that differ at most in the ids drawn for them. *)
Definition same_text (c1 c2 : Conversation.t) : Prop :=
  Conversation.title c1 = Conversation.title c2 /\
  Conversation.created_at c1 = Conversation.created_at c2 /\
  Conversation.updated_at c1 = Conversation.updated_at c2 /\
  Conversation.metadata c1 = Conversation.metadata c2 /\
  map Message_text (Conversation.messages c1)
  = map Message_text (Conversation.messages c2).





(** What the backend sees of a message. *)
Definition spoken (m : Message.t) : MessageRole * string :=
  (Message.role m, Message.content m).

Definition chosen (config : option ModelConfig.t) (default_config : ModelConfig.t)
  : ModelConfig.t :=
  match config with Some c => c | None => default_config end.

(** The user message built in world [w], and the conversation once it is
    appended. *)
Definition user_message_at (w : World) (text : string) : Message.t :=
  {| Message.id := uuids w (drawn w); Message.role := USER;
     Message.content := text; Message.timestamp := clock w (ticks w);
     Message.metadata := None |}.

Definition appended (stored : Conversation.t) (w : World) (text : string)
  : Conversation.t :=
  {| Conversation.id := Conversation.id stored;
     Conversation.messages :=
       Conversation.messages stored ++ [user_message_at w text];
     Conversation.title := Conversation.title stored;
     Conversation.created_at := Conversation.created_at stored;
     Conversation.updated_at := clock w (S (ticks w));
     Conversation.metadata := Conversation.metadata stored |}.

Definition ticked (w : World) : World :=
  {| clock := clock w; ticks := S (ticks w); urandom := urandom w;
     drawn := drawn w |}.

(** A file the repository can load: unparsable text, which the scan
    skips, or a record written by [save_conversation]. *)
Definition readable {codec : DateCodec} (file : File.t) : Prop :=
  File.text file = Garbled \/
  exists c, File.text file = Document (_conversation_to_dict c).



Definition other_than (name : string) (file : File.t) : bool :=
  negb (named name file).

(** The files of a directory that hold a JSON document. *)
Definition is_document (file : File.t) : bool :=
  match File.text file with
  | Document _ => true
  | Garbled => false
  end.

(** [conv] is what loading the file gives: the record saved there, up to
    ids that were empty. *)
Definition loaded_from {codec : DateCodec} (conv : Conversation.t)
           (file : File.t) : Prop :=
  exists c, File.text file = Document (_conversation_to_dict c)
            /\ same_text conv c.

(** The .json files of the directory in the order [list_conversations]
    opens them. *)
Definition latest_first (dir : Directory) : list File.t :=
  sort_reverse File.st_mtime (filter is_json_file (files dir)).

(** Descending order of modification time. *)
Definition modified_before : File.t -> File.t -> Prop :=
  descending File.st_mtime.


(** The record of this id is a file of the storage directory, under the
    name the repository builds for it. *)
Definition names_a_file (conversation_id : string) : Prop :=
  locate (file_name conversation_id) = Entry (file_name conversation_id).


(** The directory once [text] is written under the entry [name]. *)
Definition with_file (name : string) (text : FileText) (dir : Directory)
  : Directory :=
  {| files := filter (other_than name) (files dir)
              ++ [ {| File.name := name;
                      File.st_mtime := mtimes dir (writes dir);
                      File.text := text |} ];
     mtimes := mtimes dir; writes := S (writes dir) |}.

(** The world once the user message is built and appended: two readings
    of the clock, one id. *)
Definition after_append (w : World) : World :=
  {| clock := clock w; ticks := S (S (ticks w)); urandom := urandom w;
     drawn := S (drawn w) |}.


(** Every id of the conversation is a non-empty string. *)
Definition has_ids (c : Conversation.t) : Prop :=
  Conversation.id c <> "" /\
  Forall (fun m => Message.id m <> "") (Conversation.messages c).

(** The conversation once the reply [m] is appended at time [t]. *)
Definition replied (conv : Conversation.t) (m : Message.t) (t : datetime)
  : Conversation.t :=
  {| Conversation.id := Conversation.id conv;
     Conversation.messages := Conversation.messages conv ++ [m];
     Conversation.title := Conversation.title conv;
     Conversation.created_at := Conversation.created_at conv;
     Conversation.updated_at := t;
     Conversation.metadata := Conversation.metadata conv |}.

(** [if system_prompt:] of [start_conversation]: the prompt that counts. *)
Definition given_prompt (system_prompt : option string) : list string :=
  match system_prompt with
  | Some (String c p) => [String c p]
  | _ => []
  end.

(** [c] always returns, and every item it returns satisfies [P]. *)
Definition always (c : Py World (list MemoryItem.t))
           (P : MemoryItem.t -> Prop) : Prop :=
  forall w, exists l w', c w = (Ok l, w') /\ Forall P l.

(** The categories of the rules that capture two groups. *)
Definition produced_categories : list string :=
  ["location"; "personal"; "schedule"].

(** Every character of the text passes the test. *)
Fixpoint all_chars (P : ascii -> bool) (s : string) : bool :=
  match s with
  | EmptyString => true
  | String c s' => P c && all_chars P s'
  end.

Definition not_upper (c : ascii) : bool := negb (Text.is_upper c).

(** Every captured group is made of characters that pass the test. *)
Definition clean_captures (P : ascii -> bool) (cs : captures) : Prop :=
  Forall (fun c => all_chars P (snd c) = true) cs.

(** A text as the extractor stores it: lower-case and trimmed. *)
Definition normal_form (s : string) : Prop :=
  Text.lower s = s /\ Text.strip s = s.

(** How many items of the pool score for the query. *)
Definition relevant_count (current_message : string)
           (memories : option (list MemoryItem.t)) : nat :=
  match memories with
  | Some pool => length (filter (positive current_message) pool)
  | None => 0
  end.

(** The first element moved to the end. *)
Definition first_to_last {A} (l : list A) : list A :=
  match l with
  | [] => []
  | x :: rest => rest ++ [x]
  end.

(** The names of the topic buckets, in the order of the table. *)
Definition topic_names : list string := map fst topic_keywords.

(** The conversation a reply of the controller refers to. *)
Definition reply_conversation (r : Adapters.Reply) : option string :=
  match r with
  | Adapters.Success _ id _ _ => Some id
  | Adapters.Failure _ id => id
  | Adapters.Stored _ => None
  end.

(** The id [send_message] of the controller settles on before it starts a
    conversation of its own: the one given, else the current one. *)
Definition known_target (conversation_id current : option string)
  : option string :=
  match Adapters.or_id conversation_id current with
  | Some (String c i) => Some (String c i)
  | _ => None
  end.

(** A clock that never runs backwards. *)
Definition monotone_clock (w : World) : Prop :=
  forall i j, i <= j -> (clock w i <= clock w j)%Z.

End Views.

Module Fixtures.
Import Effects Json Entities Features Infrastructure UseCases Views.

(** A world whose clock counts 0, 1, 2, ... and whose random bytes are all
    zero: every uuid reads "00000000-0000-4000-8000-000000000000". *)
Definition world0 : World :=
  {| clock := fun n => Z.of_nat n; ticks := 0;
     urandom := fun _ => 0%N; drawn := 0 |}.

Definition message_at (role : MessageRole) (content : string) : Message.t :=
  {| Message.id := "m"; Message.role := role; Message.content := content;
     Message.timestamp := 0%Z; Message.metadata := None |}.

Definition conversation_of (messages : list Message.t) : Conversation.t :=
  {| Conversation.id := "c"; Conversation.messages := messages;
     Conversation.title := None; Conversation.created_at := 0%Z;
     Conversation.updated_at := 0%Z; Conversation.metadata := None |}.

Definition wallet_conversation : Conversation.t :=
  conversation_of [message_at USER "my wallet is on the desk"].

(** A codec that writes an instant as a decimal numeral. *)
Definition decimal_codec : DateCodec :=
  {| isoformat := fun t => NilEmpty.string_of_int (Z.to_int t);
     fromisoformat := fun s => option_map Z.of_int (NilEmpty.int_of_string s) |}.

(** [MockLanguageModel] of test_alice.py; its state is the flag [_loaded]. *)
Definition MockLanguageModel : LanguageModel bool :=
  {| is_loaded := fun loaded => loaded;
     load_model := fun _ mw => (Ok tt, (true, snd mw));
     generate_response := fun messages _ =>
       zoom snd (fun w mw => (fst mw, w))
         (let content :=
            ("Mock response to: " ++
             match rev messages with
             | last_message :: _ => Message.content last_message
             | [] => "nothing"
             end)%string in
          t <- now ;;
          response_message <- new_Message "" ASSISTANT content t None ;;
          ret {| ChatResponse.message := response_message;
                 ChatResponse.confidence := None;
                 ChatResponse.processing_time := Some 0%Z;
                 ChatResponse.model_info := None |}) |}.


Definition dialogpt_medium : ModelConfig.t :=
  {| ModelConfig.model_name := "microsoft/DialoGPT-medium";
     ModelConfig.max_length := 512%Z;
     ModelConfig.temperature := 7 # 10;
     ModelConfig.top_p := 9 # 10;
     ModelConfig.do_sample := true;
     ModelConfig.pad_token_id := None;
     ModelConfig.eos_token_id := None;
     ModelConfig.device := "auto" |}.

(** A stored record whose one message has a role outside [MessageRole]. *)
Definition moderator_record : json :=
  JObj [ ("id", JStr "x"); ("title", JNull);
         ("created_at", JStr "2024-01-01T00:00:00");
         ("updated_at", JStr "2024-01-01T00:00:00");
         ("metadata", JNull);
         ("messages",
          JArr [ JObj [ ("id", JStr "m1"); ("role", JStr "moderator");
                        ("content", JStr "hi");
                        ("timestamp", JStr "2024-01-01T00:00:00");
                        ("metadata", JNull) ] ]) ].

Definition capital_item : MemoryItem.t :=
  {| MemoryItem.key := "wallet"; MemoryItem.value := "desk";
     MemoryItem.category := "Location";
     MemoryItem.created_at := 0%Z; MemoryItem.last_accessed := 0%Z;
     MemoryItem.access_count := 0%Z; MemoryItem.confidence := 1%Q;
     MemoryItem.context := None |}.

(** A file system clock that counts the writes: 1, 2, 3, ... *)
Definition count_writes (n : nat) : Q := inject_Z (Z.of_nat (S n)).

Definition moderator_dir : Directory :=
  {| files := [ {| File.name := "x.json"; File.st_mtime := 0;
                   File.text := Document moderator_record |} ];
     mtimes := count_writes; writes := 0 |}.

(** The storage directory as the constructor leaves it. *)
Definition empty_dir : Directory :=
  {| files := []; mtimes := count_writes; writes := 0 |}.

Definition fifteen : list string :=
  ["Message 0"; "Message 1"; "Message 2"; "Message 3"; "Message 4";
   "Message 5"; "Message 6"; "Message 7"; "Message 8"; "Message 9";
   "Message 10"; "Message 11"; "Message 12"; "Message 13"; "Message 14"].

Definition four_messages : Conversation.t :=
  conversation_of [message_at USER "a"; message_at ASSISTANT "b";
                   message_at USER "c"; message_at ASSISTANT "d"].

Definition greeting : Conversation.t :=
  conversation_of [message_at USER "Hello";
                   message_at ASSISTANT "How can I help?"].

(** A system whose directory holds one saved conversation and whose
    backend fails to generate. *)
Definition turn0 : System bool :=
  {| disk := snd (save_conversation (codec := decimal_codec)
                    (conversation_of [message_at SYSTEM "You are Alice"])
                    empty_dir);
     model := false; world := world0; working := None; requests := [] |}.

(** An empty directory, the mock backend not yet loaded. *)
Definition store0 : System bool :=
  {| disk := empty_dir; model := false; world := world0; working := None;
     requests := [] |}.

(** A second conversation, under an id of its own. *)
Definition farewell : Conversation.t :=
  {| Conversation.id := "d";
     Conversation.messages := [message_at USER "Goodbye"];
     Conversation.title := None; Conversation.created_at := 0%Z;
     Conversation.updated_at := 0%Z; Conversation.metadata := None |}.


Definition keys_item : MemoryItem.t :=
  {| MemoryItem.key := "keys"; MemoryItem.value := "shelf";
     MemoryItem.category := "location";
     MemoryItem.created_at := 0%Z; MemoryItem.last_accessed := 0%Z;
     MemoryItem.access_count := 0%Z; MemoryItem.confidence := 1%Q;
     MemoryItem.context := None |}.

Definition desk_item : MemoryItem.t :=
  {| MemoryItem.key := "wallet"; MemoryItem.value := "desk";
     MemoryItem.category := "location";
     MemoryItem.created_at := 0%Z; MemoryItem.last_accessed := 0%Z;
     MemoryItem.access_count := 0%Z; MemoryItem.confidence := 1%Q;
     MemoryItem.context := None |}.

(** A controller over the empty directory, with no current conversation. *)
Definition controller0 : Adapters.Controller bool :=
  {| Adapters.system := store0; Adapters.current_conversation_id := None |}.

End Fixtures.

(* ===================================================================== *)
(** * Theorems                                                            *)
(* ===================================================================== *)

Import Effects Json Entities Regex Features Infrastructure UseCases.
Import Views Fixtures.

(** ** The matcher *)

Section MatcherFacts.
Variable R : Type.

Lemma drop_prefix_length p : forall s s',
  drop_prefix p s = Some s' ->
  String.length s' + String.length p = String.length s.
Proof.
  induction p as [|a p IH]; intros [|b s] s' H; simpl in *;
    try discriminate H.
  - injection H as <-. simpl. lia.
  - injection H as <-. simpl. lia.
  - destruct (Ascii.eqb a b); [|discriminate H].
    apply IH in H. lia.
Qed.

Lemma plus_greedy_consumes cl (k : string -> option R) x : forall s,
  plus_greedy R cl s k = Some x ->
  exists s', k s' = Some x /\ String.length s' < String.length s.
Proof.
  induction s as [|c s IH]; simpl; intros H; [discriminate H|].
  destruct (in_class cl c); [|discriminate H].
  unfold orelse in H. destruct (plus_greedy R cl s k) as [y|] eqn:E.
  - injection H as ->. destruct (IH eq_refl) as (s' & Hk & Hl).
    exists s'. split; [exact Hk|lia].
  - exists s. split; [exact H|lia].
Qed.

Lemma plus_lazy_consumes cl (k : string -> option R) x : forall s,
  plus_lazy R cl s k = Some x ->
  exists s', k s' = Some x /\ String.length s' < String.length s.
Proof.
  induction s as [|c s IH]; simpl; intros H; [discriminate H|].
  destruct (in_class cl c); [|discriminate H].
  unfold orelse in H. destruct (k s) as [y|] eqn:E.
  - injection H as ->. exists s. split; [exact E|lia].
  - destruct (IH H) as (s' & Hk & Hl). exists s'. split; [exact Hk|lia].
Qed.

(** A match hands its continuation a suffix, strictly shorter when the
    pattern consumes. *)
Lemma rmatch_consumes r : forall s cs (k : string -> captures -> option R) x,
  rmatch R r s cs k = Some x ->
  exists s' cs',
    k s' cs' = Some x /\
    String.length s' + (if consumes r then 1 else 0) <= String.length s.
Proof.
  induction r as [l|r1 IH1 r2 IH2|r1 IH1 r2 IH2|cl g|n r1 IH1];
    intros s cs k x H; simpl in H.
  - destruct (drop_prefix l s) as [s'|] eqn:E; [|discriminate H].
    apply drop_prefix_length in E. exists s', cs. split; [exact H|].
    simpl. destruct l; simpl in *; lia.
  - unfold orelse in H. simpl.
    destruct (rmatch R r1 s cs k) as [y|] eqn:E.
    + injection H as ->. destruct (IH1 _ _ _ _ E) as (s' & cs' & Hk & Hl).
      exists s', cs'. split; [exact Hk|].
      destruct (consumes r1), (consumes r2); simpl in *; lia.
    + destruct (IH2 _ _ _ _ H) as (s' & cs' & Hk & Hl).
      exists s', cs'. split; [exact Hk|].
      destruct (consumes r1), (consumes r2); simpl in *; lia.
  - destruct (IH1 _ _ _ _ H) as (s1 & cs1 & Hk1 & Hl1).
    destruct (IH2 _ _ _ _ Hk1) as (s2 & cs2 & Hk2 & Hl2).
    exists s2, cs2. split; [exact Hk2|]. simpl.
    destruct (consumes r1), (consumes r2); simpl in *; lia.
  - destruct g.
    + apply plus_greedy_consumes in H. destruct H as (s' & Hk & Hl).
      exists s', cs. split; [exact Hk|simpl; lia].
    + apply plus_lazy_consumes in H. destruct H as (s' & Hk & Hl).
      exists s', cs. split; [exact Hk|simpl; lia].
  - destruct (IH1 _ _ _ _ H) as (s' & cs' & Hk & Hl).
    eexists s', _. split; [exact Hk|exact Hl].
Qed.

End MatcherFacts.

(** No rule of the extractor matches the empty text, so [finditer] never
    has to step over an empty match. *)
Lemma match_at_consumes r s len cs :
  consumes r = true -> match_at r s = Some (len, cs) -> 1 <= len.
Proof.
  intros Hr H. unfold match_at in H.
  apply rmatch_consumes in H. destruct H as (s' & cs' & Hk & Hl).
  rewrite Hr in Hl. injection Hk as <- _. lia.
Qed.

Lemma MEMORY_PATTERNS_consume :
  Forall (fun rule => consumes (fst rule) = true) MEMORY_PATTERNS.
Proof. repeat constructor. Qed.

(** ** The extractor *)

Section ExtractorFacts.

Lemma stamps_ret_nil : stamps (ret []) [].
Proof. intros w. exists [], w. split; reflexivity. Qed.

Lemma stamps_for_extend {A} (xs : list A) (body : A -> Py World (list MemoryItem.t))
      (f : A -> list Triple) :
  (forall x, stamps (body x) (f x)) ->
  stamps (for_extend xs body) (flat_map f xs).
Proof.
  intros Hbody. induction xs as [|x xs IH]; simpl.
  - apply stamps_ret_nil.
  - intros w. unfold bind.
    destruct (Hbody x w) as (l1 & w1 & E1 & M1). rewrite E1.
    destruct (IH w1) as (l2 & w2 & E2 & M2). rewrite E2.
    exists (l1 ++ l2), w2. split; [reflexivity|].
    rewrite map_app, M1, M2. reflexivity.
Qed.

Lemma stamps_memory_of_match text pattern category m :
  stamps (memory_of_match text pattern category m)
         (if 2 <=? ngroups pattern
          then [(Text.strip (group 1 m), Text.strip (group 2 m), category)]
          else []).
Proof.
  unfold memory_of_match. destruct (2 <=? ngroups pattern).
  - intros w. unfold bind, now, ret. eexists _, _. split; reflexivity.
  - apply stamps_ret_nil.
Qed.

Lemma flat_map_singleton_if {A B} (b : bool) (f : A -> B) (l : list A) :
  flat_map (fun x => if b then [f x] else []) l = if b then map f l else [].
Proof.
  destruct b.
  - induction l; simpl; congruence.
  - induction l; simpl; auto.
Qed.

Lemma stamps_extract_from_text text :
  stamps (_extract_from_text text) (triples_of_text text).
Proof.
  unfold _extract_from_text, triples_of_text.
  apply stamps_for_extend. intros [pattern category]. unfold triples_of_rule.
  rewrite <- flat_map_singleton_if.
  apply stamps_for_extend. intros m. apply stamps_memory_of_match.
Qed.

Lemma stamps_extract_memories conversation :
  stamps (extract_memories conversation) (triples_of conversation).
Proof.
  unfold extract_memories, triples_of.
  apply stamps_for_extend. intros message.
  destruct (role_eqb (Message.role message) USER).
  - apply stamps_extract_from_text.
  - apply stamps_ret_nil.
Qed.

Lemma triples_of_user_contents conversation :
  triples_of conversation = flat_map triples_of_text (user_contents conversation).
Proof.
  unfold triples_of, user_contents, has_role.
  induction (Conversation.messages conversation) as [|m ms IH]; simpl; [reflexivity|].
  destruct (role_eqb (Message.role m) USER); simpl; rewrite IH; reflexivity.
Qed.

(** C2. [extract_memories] is idempotent up to timestamps: it always
    returns, and a second call, made in the world the first one left, gives
    a sequence of the same length with the same (key, value, category) at
    every position. *)
Theorem extract_memories_idempotent (conversation : Conversation.t) (w : World) :
  exists first w1 second w2,
    extract_memories conversation w = (Ok first, w1) /\
    extract_memories conversation w1 = (Ok second, w2) /\
    length first = length second /\
    map triple first = map triple second /\
    forall i, option_map triple (nth_error first i)
              = option_map triple (nth_error second i).
Proof.
  destruct (stamps_extract_memories conversation w) as (l1 & w1 & E1 & M1).
  destruct (stamps_extract_memories conversation w1) as (l2 & w2 & E2 & M2).
  exists l1, w1, l2, w2.
  assert (M : map triple l1 = map triple l2) by congruence.
  repeat split; auto.
  - rewrite <- (length_map triple l1), <- (length_map triple l2), M. reflexivity.
  - intros i. rewrite <- !nth_error_map, M. reflexivity.
Qed.

Lemma wallet_triples :
  flat_map triples_of_text ["my wallet is on the desk"]
  = [ ("wallet", "the desk", "location");
      ("wallet", "on the desk", "personal");
      ("my wallet", "the desk", "schedule") ].
Proof. vm_compute. reflexivity. Qed.

(** C1, counterexample. On the conversation made of the one user message
    "my wallet is on the desk" the extractor returns three items, not one. *)
Lemma wallet_not_single_item :
  ~ yields_single_location wallet_conversation world0.
Proof.
  intros (m & w' & E & _).
  destruct (stamps_extract_memories wallet_conversation world0)
    as (l & w1 & E1 & M1).
  rewrite E1 in E. injection E as El _. subst l.
  rewrite triples_of_user_contents in M1.
  change (user_contents wallet_conversation)
    with ["my wallet is on the desk"] in M1.
  rewrite wallet_triples in M1. discriminate M1.
Qed.

(** C1, amended. For a conversation whose only user message is
    "my wallet is on the desk", the extractor returns three items, one for
    each rule that matches, in declaration order: the first has category
    location, key "wallet" and value "the desk"; the personal rule and the
    schedule rule match the same span and add their own items. *)
Theorem wallet_yields_location_first (conversation : Conversation.t) (w : World) :
  user_contents conversation = ["my wallet is on the desk"] ->
  exists m1 m2 m3 w',
    extract_memories conversation w = (Ok [m1; m2; m3], w') /\
    triple m1 = ("wallet", "the desk", "location") /\
    triple m2 = ("wallet", "on the desk", "personal") /\
    triple m3 = ("my wallet", "the desk", "schedule").
Proof.
  intros Hu.
  destruct (stamps_extract_memories conversation w) as (l & w' & E & M).
  rewrite triples_of_user_contents, Hu, wallet_triples in M.
  destruct l as [|m1 [|m2 [|m3 [|m4 l]]]]; try discriminate M.
  simpl in M. injection M as M1 M2 M3.
  exists m1, m2, m3, w'. unfold triple.
  repeat split; congruence.
Qed.

Lemma wallet_yields_location_first_witness :
  user_contents wallet_conversation = ["my wallet is on the desk"] /\
  exists m1 m2 m3 w',
    extract_memories wallet_conversation world0 = (Ok [m1; m2; m3], w') /\
    triple m1 = ("wallet", "the desk", "location") /\
    triple m2 = ("wallet", "on the desk", "personal") /\
    triple m3 = ("my wallet", "the desk", "schedule").
Proof.
  split; [reflexivity|].
  apply (wallet_yields_location_first wallet_conversation world0). reflexivity.
Defined.

End ExtractorFacts.

(** ** The scorer *)

Section SortFacts.
Context {A : Type} (key : A -> Q).

Lemma insert_reverse_In (x z : A) (l : list A) :
  In z (insert_reverse key x l) <-> z = x \/ In z l.
Proof.
  induction l as [|y l IH]; simpl.
  - intuition.
  - destruct (Qle_bool (key y) (key x)); simpl; rewrite ?IH; intuition.
Qed.

Lemma insert_reverse_perm (x : A) (l : list A) :
  Permutation (insert_reverse key x l) (x :: l).
Proof.
  induction l as [|y l IH]; simpl; [reflexivity|].
  destruct (Qle_bool (key y) (key x)); [reflexivity|].
  rewrite IH. apply perm_swap.
Qed.

Lemma sort_reverse_perm (l : list A) : Permutation (sort_reverse key l) l.
Proof.
  induction l as [|x l IH]; simpl; [reflexivity|].
  rewrite insert_reverse_perm. constructor. exact IH.
Qed.

Lemma insert_reverse_sorted (x : A) (l : list A) :
  StronglySorted (descending key) l -> StronglySorted (descending key) (insert_reverse key x l).
Proof.
  induction 1 as [|y l Hs IH Hy]; simpl.
  - repeat constructor.
  - destruct (Qle_bool (key y) (key x)) eqn:E.
    + apply Qle_bool_iff in E.
      constructor; [constructor; assumption|].
      constructor; [exact E|].
      rewrite Forall_forall in *. intros z Hz. unfold descending in *.
      eapply Qle_trans; [apply Hy, Hz | exact E].
    + constructor; [exact IH|].
      rewrite Forall_forall in *. intros z Hz.
      apply insert_reverse_In in Hz. destruct Hz as [->|Hz]; [|auto].
      unfold descending. apply Qlt_le_weak, Qnot_le_lt.
      intro Hle. apply Qle_bool_iff in Hle. congruence.
Qed.

Lemma sort_reverse_sorted (l : list A) : StronglySorted (descending key) (sort_reverse key l).
Proof.
  induction l as [|x l IH]; simpl; [constructor|].
  apply insert_reverse_sorted, IH.
Qed.

(** Stability, one class of equal keys at a time. *)
Lemma insert_reverse_stable (c : Q) (x : A) (l : list A) :
  filter (fun a => Qeq_bool (key a) c) (insert_reverse key x l)
  = filter (fun a => Qeq_bool (key a) c) (x :: l).
Proof.
  induction l as [|y l IH]; [reflexivity|].
  cbn [insert_reverse]. destruct (Qle_bool (key y) (key x)) eqn:E; [reflexivity|].
  cbn [filter] in *. rewrite IH.
  destruct (Qeq_bool (key y) c) eqn:Ey, (Qeq_bool (key x) c) eqn:Ex; try reflexivity.
  exfalso. apply Qeq_bool_iff in Ey, Ex.
  assert (Hle : (key y <= key x)%Q) by (rewrite Ey, Ex; apply Qle_refl).
  apply Qle_bool_iff in Hle. congruence.
Qed.

Lemma sort_reverse_stable (c : Q) (l : list A) :
  filter (fun a => Qeq_bool (key a) c) (sort_reverse key l)
  = filter (fun a => Qeq_bool (key a) c) l.
Proof.
  induction l as [|x l IH]; [reflexivity|].
  cbn [sort_reverse fold_right]. fold (sort_reverse key l).
  rewrite insert_reverse_stable. cbn [filter]. rewrite IH. reflexivity.
Qed.

End SortFacts.

Section ScorerFacts.

Lemma relevance_score_raw query m :
  relevance_score (Text.lower query) m = raw_score query m.
Proof.
  unfold relevance_score, raw_score.
  destruct (Text.contains (Text.lower (MemoryItem.key m)) (Text.lower query)),
           (existsb _ _), (Text.contains (MemoryItem.category m) _);
    reflexivity.
Qed.

Lemma collect_relevant_filter query pool :
  collect_relevant (Text.lower query) pool
  = map (rescored query) (filter (positive query) pool).
Proof.
  induction pool as [|m pool IH]; simpl; [reflexivity|].
  rewrite relevance_score_raw. unfold positive at 1.
  destruct (0 <? raw_score query m); simpl; rewrite IH; reflexivity.
Qed.

Lemma raw_score_le_4 query m : raw_score query m <= 4.
Proof.
  unfold raw_score.
  destruct (Text.contains (Text.lower (MemoryItem.key m)) _),
           (existsb _ _), (Text.contains (MemoryItem.category m) _);
    simpl; lia.
Qed.

(** The values [min(1.0, score / 3.0)] takes. *)
Lemma normalized_values score :
  normalized score
  = match score with
    | 0 => (0 # 3)%Q
    | 1 => (1 # 3)%Q
    | 2 => (2 # 3)%Q
    | _ => 1%Q
    end.
Proof.
  destruct score as [|[|[|n]]]; try reflexivity.
  unfold normalized, py_min, thirds.
  assert (H : Qle_bool 1 (Z.of_nat (S (S (S n))) # 3) = true).
  { apply Qle_bool_iff. unfold Qle. simpl. lia. }
  rewrite H. reflexivity.
Qed.

Lemma normalized_is_min score :
  (normalized score == Qmin 1 (inject_Z (Z.of_nat score) / 3))%Q.
Proof.
  assert (T : (thirds score == inject_Z (Z.of_nat score) / 3)%Q).
  { unfold thirds, Qeq, Qdiv, Qmult, Qinv, inject_Z. simpl. lia. }
  unfold normalized, py_min. rewrite <- T.
  destruct (Qle_bool 1 (thirds score)) eqn:E.
  - apply Qle_bool_iff in E. symmetry. apply Q.min_l. exact E.
  - symmetry. apply Q.min_r. apply Qlt_le_weak, Qnot_le_lt.
    intro H. apply Qle_bool_iff in H. congruence.
Qed.

End ScorerFacts.

Section ScorerTheorems.

(** C3, counterexample. The claim looks for the case-folded key in the
    query; the scorer looks for it in the case-folded query.  For the query
    "Where is my WALLET" and an item of key "wallet" the score of the claim
    is 0, yet the scorer returns the item. *)
Lemma upper_case_query_is_folded :
  ~ returns_exactly_claimed "Where is my WALLET" [desk_item].
Proof.
  intros H.
  destruct (H desk_item (or_introl eq_refl)) as [_ Hback].
  assert (Hpos : 0 < claimed_score "Where is my WALLET" desk_item).
  { apply Hback. eexists. split; [vm_compute; left; reflexivity|reflexivity]. }
  vm_compute in Hpos. lia.
Qed.

Lemma raw_score_folded query m :
  lower_case_category m -> raw_score query m = folded_score query m.
Proof.
  intros H. unfold raw_score, folded_score, claimed_score.
  rewrite H. reflexivity.
Qed.

(** C3, amended. For every query and every pool whose category names are
    in lower case, the scorer gives each item +2 if its case-folded key
    occurs in the case-folded query, +1 if some whitespace-delimited token
    of its case-folded value does, and +1 if its case-folded category name
    does; it returns exactly the items of positive score (each as often as
    the pool has it), and each returned item is the pool item with
    confidence overwritten by min(1.0, score / 3.0). *)
Theorem scorer_selects_positive_scores (query : string) (pool : list MemoryItem.t) :
  Forall lower_case_category pool ->
  (forall m, In m pool ->
     relevance_score (Text.lower query) m = folded_score query m) /\
  Permutation (_find_relevant_memories query pool)
              (map (scored query)
                   (filter (fun m => 0 <? folded_score query m) pool)) /\
  (forall m, In m pool ->
     (0 < folded_score query m <->
      In (scored query m) (_find_relevant_memories query pool))) /\
  (forall r, In r (_find_relevant_memories query pool) ->
     exists m, In m pool /\ 0 < folded_score query m /\
               r = scored query m /\
               (MemoryItem.confidence r
                == Qmin 1 (inject_Z (Z.of_nat (folded_score query m)) / 3))%Q).
Proof.
  intros Hlow. rewrite Forall_forall in Hlow.
  assert (P : Permutation (_find_relevant_memories query pool)
                (map (scored query)
                     (filter (fun m => 0 <? folded_score query m) pool))).
  { unfold _find_relevant_memories. rewrite sort_reverse_perm.
    rewrite collect_relevant_filter.
    rewrite (filter_ext_in (positive query)
               (fun m => 0 <? folded_score query m)).
    - rewrite (map_ext_in (rescored query) (scored query)); [reflexivity|].
      intros m Hm. apply filter_In in Hm. destruct Hm as [Hm _].
      unfold rescored, scored, normalized.
      rewrite (raw_score_folded query m (Hlow m Hm)). reflexivity.
    - intros m Hm. unfold positive.
      rewrite (raw_score_folded query m (Hlow m Hm)). reflexivity. }
  assert (Back : forall r, In r (_find_relevant_memories query pool) ->
            exists m, In m pool /\ 0 < folded_score query m /\
                      r = scored query m).
  { intros r Hr. eapply Permutation_in in Hr; [|exact P].
    apply in_map_iff in Hr. destruct Hr as (m & <- & Hm).
    apply filter_In in Hm. destruct Hm as [Hm Hp].
    exists m. repeat split; auto. apply Nat.ltb_lt. exact Hp. }
  split.
  { intros m Hm. rewrite relevance_score_raw.
    apply raw_score_folded, Hlow, Hm. }
  split; [exact P|]. split.
  - intros m Hm. split.
    + intros Hs. eapply Permutation_in; [symmetry; exact P|].
      apply in_map_iff. exists m. split; [reflexivity|].
      apply filter_In. split; [exact Hm|]. apply Nat.ltb_lt. exact Hs.
    + intros Hr. destruct (Back _ Hr) as (m' & _ & Hs & E).
      assert (Em : folded_score query m = folded_score query m').
      { unfold folded_score, claimed_score.
        replace (MemoryItem.key m') with (MemoryItem.key m)
          by (apply (f_equal MemoryItem.key) in E; exact E).
        replace (MemoryItem.value m') with (MemoryItem.value m)
          by (apply (f_equal MemoryItem.value) in E; exact E).
        replace (MemoryItem.category m') with (MemoryItem.category m)
          by (apply (f_equal MemoryItem.category) in E; exact E).
        reflexivity. }
      rewrite Em. exact Hs.
  - intros r Hr. destruct (Back _ Hr) as (m & Hm & Hs & E).
    exists m. repeat split; auto.
    subst r. simpl. apply normalized_is_min.
Qed.

(** C4. The scorer's output is sorted by confidence, highest first, and the
    sort is stable: for every confidence value, the returned items that
    have it come in the order in which the pool lists them. *)
Theorem ranking_sorted_and_stable (query : string) (pool : list MemoryItem.t) :
  StronglySorted ranks_before (_find_relevant_memories query pool) /\
  forall c,
    filter (same_confidence c) (_find_relevant_memories query pool)
    = filter (same_confidence c)
             (map (rescored query) (filter (positive query) pool)).
Proof.
  unfold _find_relevant_memories. split.
  - apply (sort_reverse_sorted MemoryItem.confidence).
  - intros c. unfold same_confidence.
    rewrite (sort_reverse_stable MemoryItem.confidence).
    rewrite collect_relevant_filter. reflexivity.
Qed.

End ScorerTheorems.

Lemma scorer_selects_positive_scores_witness :
  Forall lower_case_category [desk_item; keys_item] /\
  In (scored "Where is my WALLET" desk_item)
     (_find_relevant_memories "Where is my WALLET" [desk_item; keys_item]).
Proof.
  assert (H : Forall lower_case_category [desk_item; keys_item])
    by (repeat constructor).
  split; [exact H|].
  apply (proj1 (proj2 (proj2 (scorer_selects_positive_scores
                                "Where is my WALLET"
                                [desk_item; keys_item] H)))
           desk_item).
  - left. reflexivity.
  - vm_compute. lia.
Defined.

(** ** The context assembler *)

Section AssemblerFacts.

Lemma list_insert_before_last {A} (x l : A) (pre : list A) :
  list_insert (-1) x (pre ++ [l]) = pre ++ [x; l].
Proof.
  unfold list_insert. rewrite length_app. simpl.
  replace (Z.to_nat _) with (length pre + 0) by lia.
  rewrite firstn_app_2, skipn_app, skipn_all2 by lia.
  replace (length pre + 0 - length pre) with 0 by lia.
  simpl. rewrite app_nil_r. reflexivity.
Qed.

Lemma length_list_insert {A} (i : Z) (x : A) (l : list A) :
  length (list_insert i x l) = S (length l).
Proof.
  unfold list_insert. rewrite length_app. simpl.
  rewrite length_firstn, length_skipn. lia.
Qed.

Lemma memory_message_runs memory w :
  exists m w', memory_message memory w = (Ok m, w') /\
               Message.content m = memory_text memory /\
               is_memory_message m.
Proof.
  eexists _, _. split; [reflexivity|]. split; [reflexivity|].
  split; [reflexivity|]. eexists. reflexivity.
Qed.

Lemma inject_memories_length relevant : forall context_messages w,
  exists out w', inject_memories relevant context_messages w = (Ok out, w') /\
                 length out = length context_messages + length relevant.
Proof.
  induction relevant as [|memory rest IH]; intros ctx w; simpl.
  - exists ctx, w. split; [reflexivity|lia].
  - destruct (memory_message_runs memory w) as (m & w1 & E & _).
    unfold bind at 1. rewrite E.
    destruct (IH (list_insert (-1) m ctx) w1) as (out & w' & E' & Hl).
    exists out, w'. split; [exact E'|].
    rewrite Hl, length_list_insert. lia.
Qed.

Lemma inject_memories_before_last relevant : forall pre last w,
  exists injected w',
    inject_memories relevant (pre ++ [last]) w
      = (Ok (pre ++ injected ++ [last]), w') /\
    map Message.content injected = map memory_text relevant /\
    Forall is_memory_message injected.
Proof.
  induction relevant as [|memory rest IH]; intros pre last w; simpl.
  - exists [], w. repeat split; constructor.
  - destruct (memory_message_runs memory w) as (m & w1 & E & Hc & Hm).
    unfold bind at 1. rewrite E, list_insert_before_last.
    destruct (IH (pre ++ [m]) last w1) as (inj & w' & E' & Hcs & Hms).
    change (pre ++ [m; last]) with (pre ++ [m] ++ [last]).
    rewrite app_assoc, E'.
    exists (m :: inj), w'. split; [|split].
    + rewrite <- app_assoc. reflexivity.
    + simpl. rewrite Hc, Hcs. reflexivity.
    + constructor; assumption.
Qed.

Lemma get_relevant_context_retained window conversation current_message memories :
  get_relevant_context window conversation current_message memories
  = inject_memories (retained current_message memories)
                    (get_context_messages conversation window).
Proof.
  unfold get_relevant_context, retained.
  destruct memories as [[|m pool]|]; reflexivity.
Qed.

Lemma retained_at_most_3 current_message memories :
  length (retained current_message memories) <= 3.
Proof.
  unfold retained. destruct memories as [pool|].
  - rewrite length_firstn. lia.
  - simpl. lia.
Qed.

(** The window is a suffix of the conversation; for a window of at least
    one it holds at most [window] messages. *)
Lemma get_context_messages_suffix conversation window :
  exists n, get_context_messages conversation window
            = skipn n (Conversation.messages conversation).
Proof. unfold get_context_messages, slice_from. eexists. reflexivity. Qed.

Lemma get_context_messages_length conversation window :
  (1 <= window)%Z ->
  (Z.of_nat (length (get_context_messages conversation window)) <= window)%Z.
Proof.
  intros Hw. unfold get_context_messages, slice_from.
  rewrite length_skipn.
  destruct (- window <? 0)%Z eqn:E; [|apply Z.ltb_ge in E; lia].
  lia.
Qed.

Lemma last_of_suffix {A} (n : nat) (l pre : list A) (x d : A) :
  skipn n l = pre ++ [x] -> last l d = x.
Proof.
  intros H. rewrite <- (firstn_skipn n l), H, app_assoc. apply last_last.
Qed.

(** For a window of at least one message the assembled context stays
    within [window + 3]. *)
Lemma context_bounded_for_positive_window
      window conversation current_message memories w :
  (1 <= window)%Z ->
  exists out w',
    get_relevant_context window conversation current_message memories w
      = (Ok out, w') /\
    (Z.of_nat (length out) <= window + 3)%Z.
Proof.
  intros Hw. rewrite get_relevant_context_retained.
  destruct (inject_memories_length (retained current_message memories)
              (get_context_messages conversation window) w)
    as (out & w' & E & Hl).
  exists out, w'. split; [exact E|].
  pose proof (get_context_messages_length conversation window Hw).
  pose proof (retained_at_most_3 current_message memories). lia.
Qed.

(** C5, at the failing input. With a window of 0 the slice
    [messages[-0:]] is the whole conversation: four messages come back,
    more than 0 + 3. *)
Theorem zero_window_returns_everything :
  get_relevant_context 0 four_messages "c" None world0
    = (Ok (Conversation.messages four_messages), world0) /\
  length (Conversation.messages four_messages) = 4 /\
  ~ (Z.of_nat (length (Conversation.messages four_messages)) <= 0 + 3)%Z.
Proof.
  split; [reflexivity|]. split; [reflexivity|]. simpl. lia.
Qed.

End AssemblerFacts.

Section AssemblerTheorems.

Lemma append_user_messages_runs contents : forall conv w,
  exists conv' w',
    append_user_messages contents conv w = (Ok conv', w') /\
    map Message.content (Conversation.messages conv')
    = map Message.content (Conversation.messages conv) ++ contents /\
    map Message.role (Conversation.messages conv')
    = map Message.role (Conversation.messages conv)
      ++ map (fun _ => USER) contents.
Proof.
  induction contents as [|content rest IH]; intros conv w.
  - exists conv, w. simpl. rewrite !app_nil_r. auto.
  - cbn [append_user_messages].
    unfold bind, now, new_Message, add_message, bind, uuid4, now, ret. cbn.
    match goal with
    | |- context [append_user_messages rest ?c ?v] =>
        destruct (IH c v) as (conv' & w' & E & Hc & Hr)
    end.
    exists conv', w'. split; [exact E|].
    cbn in Hc, Hr. rewrite map_app in Hc, Hr. cbn in Hc, Hr.
    rewrite <- app_assoc in Hc, Hr. auto.
Qed.

(** C6. When the window is not empty, the synthesized memory messages all
    go between its other messages and its final message, so the assembled
    context still ends with the most recent message of the conversation;
    and a conversation of 15 appended user messages, assembled with window
    10 and no memory pool, gives its last 10 messages in order, the 15th
    last. *)
Theorem memories_go_before_last_message :
  (forall window conversation current_message memories w pre final,
     get_context_messages conversation window = pre ++ [final] ->
     exists injected w',
       get_relevant_context window conversation current_message memories w
         = (Ok (pre ++ injected ++ [final]), w') /\
       Forall is_memory_message injected /\
       map Message.content injected
       = map memory_text (retained current_message memories) /\
       forall d, last (pre ++ injected ++ [final]) d
                 = last (Conversation.messages conversation) d) /\
  (forall contents start current_message w,
     length contents = 15 ->
     Conversation.messages start = [] ->
     exists conv w1,
       append_user_messages contents start w = (Ok conv, w1) /\
       map Message.content (Conversation.messages conv) = contents /\
       Forall (fun m => Message.role m = USER) (Conversation.messages conv) /\
       get_relevant_context 10 conv current_message None w1
         = (Ok (skipn 5 (Conversation.messages conv)), w1) /\
       length (skipn 5 (Conversation.messages conv)) = 10 /\
       map Message.content (skipn 5 (Conversation.messages conv))
       = skipn 5 contents /\
       nth_error (skipn 5 (Conversation.messages conv)) 9
       = nth_error (Conversation.messages conv) 14).
Proof.
  split.
  - intros window conversation current_message memories w pre final Hw.
    rewrite get_relevant_context_retained, Hw.
    destruct (inject_memories_before_last
                (retained current_message memories) pre final w)
      as (injected & w' & E & Hc & Hm).
    exists injected, w'. repeat split; auto.
    intros d. rewrite app_assoc, last_last.
    destruct (get_context_messages_suffix conversation window) as (n & Hn).
    symmetry. eapply last_of_suffix. rewrite <- Hn. exact Hw.
  - intros contents start current_message w Hlen Hstart.
    destruct (append_user_messages_runs contents start w)
      as (conv & w1 & E & Hc & Hr).
    rewrite Hstart in Hc, Hr. simpl in Hc, Hr.
    assert (Hn : length (Conversation.messages conv) = 15).
    { rewrite <- (length_map Message.content), Hc. exact Hlen. }
    exists conv, w1. repeat split; auto.
    + apply Forall_forall. intros m Hm.
      apply (in_map Message.role) in Hm. rewrite Hr in Hm.
      apply in_map_iff in Hm. destruct Hm as (_ & Hm & _). auto.
    + unfold get_relevant_context, get_context_messages, slice_from.
      rewrite Hn. reflexivity.
    + rewrite length_skipn. lia.
    + rewrite <- skipn_map, Hc. reflexivity.
    + rewrite nth_error_skipn. reflexivity.
Qed.

Lemma memories_go_before_last_message_witness :
  get_context_messages four_messages 2
    = [message_at USER "c"] ++ [message_at ASSISTANT "d"] /\
  length fifteen = 15 /\
  (exists injected w',
     get_relevant_context 2 four_messages "where is my wallet"
                          (Some [capital_item]) world0
       = (Ok ([message_at USER "c"] ++ injected ++ [message_at ASSISTANT "d"]),
          w')) /\
  (exists conv w1,
     append_user_messages fifteen (conversation_of []) world0 = (Ok conv, w1) /\
     map Message.content (Conversation.messages conv) = fifteen).
Proof.
  split; [reflexivity|]. split; [reflexivity|]. split.
  - destruct (proj1 memories_go_before_last_message
                2%Z four_messages "where is my wallet" (Some [capital_item])
                world0 [message_at USER "c"] (message_at ASSISTANT "d")
                eq_refl)
      as (injected & w' & E & _).
    exists injected, w'. exact E.
  - destruct (proj2 memories_go_before_last_message
                fifteen (conversation_of []) "next" world0 eq_refl eq_refl)
      as (conv & w1 & E & Hc & _).
    exists conv, w1. split; assumption.
Defined.

End AssemblerTheorems.

(** ** The analyzer *)

Section AnalyzerTheorems.

Lemma count_questions_sum messages :
  _count_questions messages = question_marks messages.
Proof.
  unfold question_marks.
  induction messages as [|m ms IH]; simpl; [reflexivity|].
  rewrite IH. reflexivity.
Qed.

(** C7, counterexample. The assistant's "How can I help?" holds the only
    '?' of the conversation; the analyzer reports 0 questions, the count
    over all messages is 1. *)
Lemma assistant_question_not_counted :
  Analysis.questions_asked (analyze_conversation greeting)
  <> question_marks (Conversation.messages greeting).
Proof. vm_compute. discriminate. Qed.

(** C7, amended. For every conversation, questions_asked is the number of
    '?' characters summed over the contents of its user messages; the
    messages of the other roles are not counted. *)
Theorem questions_asked_counts_user_messages (conversation : Conversation.t) :
  Analysis.questions_asked (analyze_conversation conversation)
  = question_marks (filter (has_role USER) (Conversation.messages conversation)).
Proof. unfold analyze_conversation. simpl. apply count_questions_sum. Qed.

End AnalyzerTheorems.

(** ** Paths and names *)

Section PathFacts.

Lemma length_app_string a b :
  String.length (a ++ b) = String.length a + String.length b.
Proof. induction a as [|c a IH]; simpl; [|rewrite IH]; reflexivity. Qed.

Lemma append_assoc_string (a b c : string) :
  ((a ++ b) ++ c = a ++ (b ++ c))%string.
Proof. induction a as [|x a IH]; simpl; [|rewrite IH]; reflexivity. Qed.



Lemma mentions_app c a b :
  mentions c (a ++ b) = mentions c a || mentions c b.
Proof.
  induction a as [|d a IH]; simpl; [reflexivity|].
  rewrite IH. apply orb_assoc.
Qed.

Lemma split_at_plain sep s : mentions sep s = false -> split_at sep s = [s].
Proof.
  induction s as [|c s IH]; simpl; intros H; [reflexivity|].
  apply orb_false_iff in H. destruct H as [Hc Hs].
  rewrite Ascii.eqb_sym, Hc, (IH Hs). reflexivity.
Qed.

Lemma eqb_by_length a b :
  String.length a <> String.length b -> String.eqb a b = false.
Proof. intros H. apply String.eqb_neq. intros ->. auto. Qed.

Lemma startswith_separator s :
  mentions "/" s = false -> s <> "" -> Text.startswith "/" s = false.
Proof.
  destruct s as [|c s]; [congruence|]. simpl. intros H _.
  apply orb_false_iff in H. destruct H as [-> _]. reflexivity.
Qed.

(** A name without separator or NUL character, and not too long, is a
    file of the storage directory. *)
Lemma locate_plain file :
  mentions NUL file = false -> mentions "/" file = false ->
  String.length file <= NAME_MAX -> 3 <= String.length file ->
  locate file = Entry file.
Proof.
  intros Hnul Hsep Hmax Hmin. unfold locate. rewrite Hnul.
  assert (Hlen : (NAME_MAX <? String.length file) = false)
    by (apply Nat.ltb_ge; exact Hmax).
  rewrite Hlen, startswith_separator; [|exact Hsep|].
  - assert (K : kept file = true).
    { unfold kept.
      rewrite (eqb_by_length file ""), (eqb_by_length file ".")
        by (simpl; lia).
      reflexivity. }
    rewrite (split_at_plain _ _ Hsep). cbn [filter orb]. rewrite K.
    rewrite (eqb_by_length file "..") by (simpl; lia).
    reflexivity.
  - intros ->. simpl in Hmin. lia.
Qed.

Lemma locate_file_name id :
  mentions NUL id = false -> mentions "/" id = false ->
  String.length id + 5 <= NAME_MAX ->
  names_a_file id.
Proof.
  intros Hnul Hsep Hmax. unfold names_a_file, file_name.
  apply locate_plain; rewrite ?mentions_app, ?length_app_string, ?Hnul, ?Hsep;
    simpl; try reflexivity; lia.
Qed.

Lemma hexdigit_in n : In (hexdigit n) ("0"%char :: hexdigits).
Proof.
  unfold hexdigit.
  destruct (nth_in_or_default (N.to_nat n) hexdigits "0"%char) as [H|H].
  - right. exact H.
  - left. symmetry. exact H.
Qed.

Lemma mentions_digits c (f : nat -> N) (l : list nat) :
  Forall (fun d => Ascii.eqb c d = false) ("0"%char :: hexdigits) ->
  mentions c (string_of_list_ascii (map (fun i => hexdigit (f i)) l)) = false.
Proof.
  intros H. rewrite Forall_forall in H.
  induction l as [|i l IH]; simpl; [reflexivity|].
  rewrite IH, (H _ (hexdigit_in (f i))). reflexivity.
Qed.

Lemma length_digits (f : nat -> ascii) (l : list nat) :
  String.length (string_of_list_ascii (map f l)) = length l.
Proof. induction l as [|i l IH]; simpl; [|rewrite IH]; reflexivity. Qed.

Lemma mentions_uuids c w n :
  Forall (fun d => Ascii.eqb c d = false) ("-"%char :: "0"%char :: hexdigits) ->
  mentions c (uuids w n) = false.
Proof.
  intros H. inversion H as [|? ? Hdash Hdigits]; subst.
  unfold uuids, UUID_str, hex.
  rewrite !mentions_app, !(mentions_digits c _ _ Hdigits).
  simpl. rewrite Hdash. reflexivity.
Qed.

Lemma length_uuids w n : String.length (uuids w n) = 36.
Proof.
  unfold uuids, UUID_str, hex.
  rewrite !length_app_string, !length_digits, !length_seq. reflexivity.
Qed.

(** The text of a uuid is never empty and always names a file. *)
Lemma uuids_not_empty w n : uuids w n <> "".
Proof.
  intros H. apply (f_equal String.length) in H.
  rewrite length_uuids in H. discriminate H.
Qed.

Lemma uuids_name_files w n : names_a_file (uuids w n).
Proof.
  apply locate_file_name.
  - apply mentions_uuids. repeat constructor.
  - apply mentions_uuids. repeat constructor.
  - rewrite length_uuids. unfold NAME_MAX. lia.
Qed.

End PathFacts.

Section ListFacts.
Context {A : Type} (f : A -> bool).




Lemma Forall_firstn_keeps (P : A -> Prop) (n : nat) (l : list A) :
  Forall P l -> Forall P (firstn n l).
Proof.
  intros H. apply Forall_forall. intros x Hx.
  rewrite Forall_forall in H. apply H.
  rewrite <- (firstn_skipn n l). apply in_or_app. left. exact Hx.
Qed.

End ListFacts.

(** ** The repository *)

Section RepositoryFacts.
Context {codec : DateCodec}.



Lemma get_conversation_missing_key dir conversation_id fields w :
  read_file (file_name conversation_id) dir
  = Ok (Some (Document (JObj fields))) ->
  lookup "messages" fields = None ->
  get_conversation dir conversation_id w = (Ok None, w).
Proof.
  intros H Hk. unfold get_conversation. rewrite H.
  unfold try_except, bind, json_load, ret, _dict_to_conversation, bind, item.
  rewrite Hk. reflexivity.
Qed.

Lemma load_each_skips_garbled file rest w :
  File.text file = Garbled ->
  load_each (file :: rest) w = load_each rest w.
Proof.
  intros H. cbn [load_each]. rewrite H. unfold bind at 1. cbn.
  unfold bind. destruct (load_each rest w) as [[l| |] w']; reflexivity.
Qed.

(** C9, at the failing input. A stored record that is valid JSON with
    every key present, but whose message role is not a [MessageRole], makes
    both the lookup and the scan end with the [ValueError] of the enum:
    the [except] clauses name [JSONDecodeError] and [KeyError] only. *)
Theorem unknown_role_escapes_lookup (w : World) :
  get_conversation moderator_dir "x" w
    = (Raise (ValueError "not a valid MessageRole"), w) /\
  list_conversations moderator_dir 50 w
    = (Raise (ValueError "not a valid MessageRole"), w).
Proof. split; reflexivity. Qed.

End RepositoryFacts.

(** ** Writing a file *)

Section WriteFacts.

Lemma named_refl name mtime text :
  named name {| File.name := name; File.st_mtime := mtime; File.text := text |}
  = true.
Proof. unfold named. simpl. apply String.eqb_refl. Qed.

Lemma find_app_none {A} (f : A -> bool) (l1 l2 : list A) :
  find f l1 = None -> find f (l1 ++ l2) = find f l2.
Proof.
  induction l1 as [|x l1 IH]; simpl; [reflexivity|].
  destruct (f x); [discriminate|exact IH].
Qed.

Lemma find_app_some {A} (f : A -> bool) (l1 l2 : list A) x :
  find f l1 = Some x -> find f (l1 ++ l2) = Some x.
Proof.
  induction l1 as [|y l1 IH]; simpl; [discriminate|].
  destruct (f y); [auto|exact IH].
Qed.

Lemma find_filter_complement {A} (f : A -> bool) (l : list A) :
  find f (filter (fun x => negb (f x)) l) = None.
Proof.
  induction l as [|x l IH]; simpl; [reflexivity|].
  destruct (f x) eqn:E; simpl; rewrite ?E; exact IH.
Qed.

Lemma find_filter_implied {A} (f g : A -> bool) (l : list A) :
  (forall x, f x = true -> g x = true) ->
  find f (filter g l) = find f l.
Proof.
  intros H. induction l as [|x l IH]; simpl; [reflexivity|].
  destruct (g x) eqn:Eg; simpl.
  - rewrite IH. reflexivity.
  - destruct (f x) eqn:Ef; [|exact IH].
    rewrite (H x Ef) in Eg. discriminate Eg.
Qed.

(** What a write under a name of the directory leaves. *)
Lemma write_file_entry file name text dir :
  locate file = Entry name ->
  write_file file text dir = (Ok tt, with_file name text dir).
Proof. intros H. unfold write_file. rewrite H. reflexivity. Qed.

(** A write either returns, under a name of the directory, or leaves the
    directory as it was. *)
Lemma write_file_cases file text dir o dir' :
  write_file file text dir = (o, dir') ->
  (exists name, locate file = Entry name /\ o = Ok tt) \/
  (o <> Ok tt /\ dir' = dir).
Proof.
  unfold write_file. destruct (locate file) as [name|name| |] eqn:E.
  - intros H. injection H as <- _. left. exists name. auto.
  - destruct (existsb _ _); intros H; injection H as <- <-;
      right; (split; [discriminate|reflexivity]).
  - intros H; injection H as <- <-. right. split; [discriminate|reflexivity].
  - intros H; injection H as <- <-. right. split; [discriminate|reflexivity].
Qed.

Lemma read_file_written file name text dir dir' :
  locate file = Entry name ->
  write_file file text dir = (Ok tt, dir') ->
  read_file file dir' = Ok (Some text).
Proof.
  intros Hl Hw. rewrite (write_file_entry _ _ _ _ Hl) in Hw.
  injection Hw as <-. unfold read_file. rewrite Hl.
  unfold with_file. cbn [files].
  rewrite find_app_none by apply (find_filter_complement (named name)).
  cbn [find]. rewrite named_refl. reflexivity.
Qed.

Lemma read_file_other file file' text dir dir' :
  write_file file' text dir = (Ok tt, dir') ->
  locate file <> locate file' ->
  read_file file dir' = read_file file dir.
Proof.
  intros Hw Hn. destruct (write_file_cases _ _ _ _ _ Hw)
    as [(name' & Hl & _)|[Ho _]]; [|congruence].
  rewrite (write_file_entry _ _ _ _ Hl) in Hw. injection Hw as <-.
  unfold read_file. destruct (locate file) as [name|through| |] eqn:E;
    try reflexivity.
  unfold with_file. cbn [files]. f_equal. f_equal.
  assert (Hne : String.eqb name name' = false).
  { apply String.eqb_neq. intros ->. apply Hn. rewrite Hl. reflexivity. }
  assert (Hkeep : find (named name) (filter (other_than name') (files dir))
                  = find (named name) (files dir)).
  { apply find_filter_implied. intros f Hf. unfold other_than, named in *.
    apply String.eqb_eq in Hf. rewrite <- Hf.
    rewrite String.eqb_sym, Hne. reflexivity. }
  destruct (find (named name) (files dir)) as [f|] eqn:F.
  - apply find_app_some. exact Hkeep.
  - rewrite find_app_none by exact Hkeep. cbn [find].
    unfold named at 1. cbn [File.name]. rewrite Hne. reflexivity.
Qed.

End WriteFacts.

(** ** Reading a record in two worlds *)

Section SimFacts.
Context {codec : DateCodec}.

















End SimFacts.

(** ** The turn cycle *)

Section TurnFacts.
Context {L : Type} {backend : LanguageModel L} {codec : DateCodec}.



(** The state of a turn once the user message is appended. *)
Lemma send_message_found default_config cid text config (s : System L)
      stored w2 :
  get_conversation (disk s) cid (ticked (world s)) = (Ok (Some stored), w2) ->
  send_message default_config cid text config s
  = (let conversation := appended stored w2 text in
     let model_config := chosen config default_config in
     (if is_loaded (model s) then ret tt
      else in_model (load_model model_config)) ;;;
     let context_messages := get_context_messages conversation 10 in
     log_request context_messages ;;;
     response <- in_model (generate_response context_messages model_config) ;;
     end_time <- in_world now ;;
     let response :=
       with_processing_time response
         (end_time - clock (world s) (ticks (world s))) in
     conversation <-
       in_world (add_message conversation (ChatResponse.message response)) ;;
     hold (Some conversation) ;;;
     save conversation ;;;
     ret response)
      {| disk := disk s; model := model s; world := after_append w2;
         working := Some (appended stored w2 text);
         requests := requests s |}.
Proof.
  intros G. unfold send_message.
  unfold bind at 1, hold at 1, modify. unfold bind at 1, in_world at 1, zoom, now.
  cbn [world disk model working requests].
  unfold bind at 1, get. unfold bind at 1, in_world at 1, zoom.
  cbn [world disk model working requests].
  change {| clock := clock (world s); ticks := S (ticks (world s));
            urandom := urandom (world s); drawn := drawn (world s) |}
    with (ticked (world s)).
  rewrite G. reflexivity.
Qed.



End TurnFacts.


(** ** The memory store *)

Section RoundTrip.
Context {codec : DateCodec}.
Hypothesis iso_round_trip : forall t, fromisoformat (isoformat t) = Some t.

Lemma role_round_trip r w : MessageRole_of (JStr (role_value r)) w = (Ok r, w).
Proof. destruct r; reflexivity. Qed.

Lemma datetime_round_trip t w : parse_datetime (JStr (isoformat t)) w = (Ok t, w).
Proof. unfold parse_datetime. rewrite iso_round_trip. reflexivity. Qed.

Lemma metadata_round_trip md : as_metadata (json_of_metadata md) = Some md.
Proof. destruct md; reflexivity. Qed.

Lemma message_round_trip m w :
  exists m' w',
    message_of_dict (message_to_dict m) w = (Ok (Some m'), w') /\
    Message_text m' = Message_text m.
Proof.
  unfold message_of_dict, message_to_dict.
  unfold bind, ret. cbn -[MessageRole_of parse_datetime post_init_id].
  rewrite role_round_trip, datetime_round_trip, metadata_round_trip.
  unfold post_init_id, falsy, as_str, bind, uuid4, ret.
  destruct (Message.id m); eexists _, _; split; reflexivity.
Qed.

Lemma messages_round_trip ms : forall w,
  exists ms' w',
    messages_of_dicts (map message_to_dict ms) w = (Ok (map Some ms'), w') /\
    map Message_text ms' = map Message_text ms.
Proof.
  induction ms as [|m ms IH]; intros w; simpl.
  - exists [], w. split; reflexivity.
  - destruct (message_round_trip m w) as (m' & w1 & E & Hm).
    unfold bind at 1. rewrite E.
    destruct (IH w1) as (ms' & w2 & E' & Hms).
    unfold bind at 1. rewrite E'.
    exists (m' :: ms'), w2. split; [reflexivity|].
    simpl. rewrite Hm, Hms. reflexivity.
Qed.

Lemma all_typed_map_Some {A} (l : list A) : all_typed (map Some l) = Some l.
Proof. induction l as [|x l IH]; simpl; [|rewrite IH]; reflexivity. Qed.

Lemma title_round_trip t : as_optional_str (of_option_string t) = Some t.
Proof. destruct t; reflexivity. Qed.

(** What [save] writes, [get] reads back, up to ids that were empty. *)
Lemma conversation_round_trip c w :
  exists c' w',
    _dict_to_conversation (_conversation_to_dict c) w = (Ok c', w') /\
    same_text c' c.
Proof.
  unfold _dict_to_conversation, _conversation_to_dict.
  unfold bind at 1, ret.
  cbn -[messages_of_dicts parse_datetime post_init_id bind].
  unfold bind at 1, ret at 1. cbn beta iota. unfold bind at 1.
  destruct (messages_round_trip (Conversation.messages c) w)
    as (ms' & w1 & E & Hms).
  rewrite E.
  unfold bind, ret. cbn -[parse_datetime post_init_id].
  rewrite !datetime_round_trip, metadata_round_trip, title_round_trip,
    all_typed_map_Some.
  unfold post_init_id, falsy, as_str, bind, uuid4, ret.
  destruct (Conversation.id c); eexists _, _; (split; [reflexivity|]);
    unfold same_text; simpl; auto.
Qed.

End RoundTrip.

Lemma endswith_app suffix prefix :
  Text.endswith suffix (prefix ++ suffix) = true.
Proof.
  induction prefix as [|c prefix IH]; simpl.
  - destruct suffix; simpl; rewrite ?Ascii.eqb_refl, ?String.eqb_refl; reflexivity.
  - rewrite IH. apply orb_true_r.
Qed.


Section LatestFirst.
Context {A : Type} (key : A -> Q).


End LatestFirst.

Section MemoryStoreFacts.
Context {L : Type} {backend : LanguageModel L} {codec : DateCodec}.
Hypothesis iso_round_trip : forall t, fromisoformat (isoformat t) = Some t.

Lemma save_conversation_entry c name dir :
  locate (file_name (Conversation.id c)) = Entry name ->
  save_conversation c dir
  = (Ok tt, with_file name (Document (_conversation_to_dict c)) dir).
Proof. intros H. unfold save_conversation. apply write_file_entry, H. Qed.









End MemoryStoreFacts.

Section TextFacts.

Lemma lower_app a b : Text.lower (a ++ b) = (Text.lower a ++ Text.lower b)%string.
Proof. induction a as [|c a IH]; simpl; [|rewrite IH]; reflexivity. Qed.

Lemma startswith_app x q : Text.startswith x (x ++ q) = true.
Proof.
  induction x as [|c x IH]; simpl; [reflexivity|].
  rewrite Ascii.eqb_refl, IH. reflexivity.
Qed.

Lemma contains_at_head x q : Text.contains x (x ++ q) = true.
Proof.
  destruct (x ++ q)%string eqn:E; simpl; rewrite <- E, startswith_app;
    reflexivity.
Qed.

Lemma contains_after x p s :
  Text.contains x s = true -> Text.contains x (p ++ s) = true.
Proof.
  intros H. induction p as [|c p IH]; simpl; [exact H|].
  rewrite IH. apply orb_true_r.
Qed.


End TextFacts.

Section MemoryStoreTheorems.
Context {L : Type} {backend : LanguageModel L} {codec : DateCodec}.


End MemoryStoreTheorems.

Lemma decimal_round_trip t :
  @fromisoformat decimal_codec (@isoformat decimal_codec t) = Some t.
Proof.
  simpl. rewrite NilEmpty.isi. simpl. rewrite DecimalZ.of_to. reflexivity.
Qed.


Lemma turn0_readable :
  Forall (readable (codec := decimal_codec)) (files (disk turn0)).
Proof.
  constructor; [|constructor]. right. eexists. reflexivity.
Qed.


(** A turn that succeeds, with the mock backend of the tests: the stored
    conversation gains the user message and the reply. *)
Example mock_turn_is_saved :
  exists response s' saved w',
    send_message (backend := MockLanguageModel) (codec := decimal_codec)
                 dialogpt_medium "c" "where is my wallet" None turn0
      = (Ok response, s') /\
    get_conversation (codec := decimal_codec) (disk s') "c" (world s')
      = (Ok (Some saved), w') /\
    map spoken (Conversation.messages saved)
    = [ (SYSTEM, "You are Alice"); (USER, "where is my wallet");
        (ASSISTANT, "Mock response to: where is my wallet") ].
Proof. vm_compute. eexists _, _, _, _. repeat split. Qed.

(* ===================================================================== *)
(** * Further properties of the code                                      *)
(* ===================================================================== *)

(** ** The repository: round trip, frame, listing *)

Section RepositoryRoundTrip.
Context {codec : DateCodec}.
Hypothesis iso_round_trip : forall t, fromisoformat (isoformat t) = Some t.

Lemma message_round_trip_exact m w :
  Message.id m <> "" ->
  message_of_dict (message_to_dict m) w = (Ok (Some m), w).
Proof.
  intros Hid. destruct m as [id role content ts md]. simpl in Hid.
  unfold message_of_dict, message_to_dict.
  unfold bind, ret. cbn -[MessageRole_of parse_datetime post_init_id].
  rewrite role_round_trip, (datetime_round_trip iso_round_trip),
    metadata_round_trip.
  unfold post_init_id, falsy, as_str, bind, uuid4, ret.
  destruct id; [contradiction|reflexivity].
Qed.

Lemma messages_round_trip_exact ms w :
  Forall (fun m => Message.id m <> "") ms ->
  messages_of_dicts (map message_to_dict ms) w = (Ok (map Some ms), w).
Proof.
  induction 1 as [|m ms Hm _ IH]; simpl; [reflexivity|].
  unfold bind at 1. rewrite (message_round_trip_exact m w Hm).
  unfold bind at 1. rewrite IH. reflexivity.
Qed.

Lemma conversation_round_trip_exact c w :
  has_ids c ->
  _dict_to_conversation (_conversation_to_dict c) w = (Ok c, w).
Proof.
  intros [Hid Hms]. destruct c as [id ms title created updated md].
  simpl in Hid, Hms.
  unfold _dict_to_conversation, _conversation_to_dict.
  unfold bind at 1, ret.
  cbn -[messages_of_dicts parse_datetime post_init_id bind].
  unfold bind at 1, ret at 1. cbn beta iota. unfold bind at 1.
  rewrite (messages_round_trip_exact ms w Hms).
  unfold bind, ret. cbn -[parse_datetime post_init_id].
  rewrite !(datetime_round_trip iso_round_trip), metadata_round_trip,
    title_round_trip, all_typed_map_Some.
  unfold post_init_id, falsy, as_str, bind, uuid4, ret.
  destruct id; [contradiction|reflexivity].
Qed.

Lemma get_saved_conversation (c : Conversation.t) (name : string)
      (dir dir' : Directory) (w : World) :
  has_ids c ->
  locate (file_name (Conversation.id c)) = Entry name ->
  save_conversation c dir = (Ok tt, dir') ->
  get_conversation dir' (Conversation.id c) w = (Ok (Some c), w).
Proof.
  intros Hc Hl Hs. unfold get_conversation.
  rewrite (read_file_written _ _ _ _ _ Hl Hs).
  unfold try_except, bind at 1, json_load, ret. cbn beta iota. unfold bind at 1.
  rewrite (conversation_round_trip_exact c w Hc). reflexivity.
Qed.


End RepositoryRoundTrip.

Section RepositoryFrame.
Context {codec : DateCodec}.

Lemma get_other_conversation (c : Conversation.t) (dir dir' : Directory)
      (conversation_id : string) (w : World) :
  save_conversation c dir = (Ok tt, dir') ->
  locate (file_name conversation_id)
  <> locate (file_name (Conversation.id c)) ->
  get_conversation dir' conversation_id w
  = get_conversation dir conversation_id w.
Proof.
  intros Hs Hn. unfold get_conversation.
  rewrite (read_file_other _ _ _ _ _ Hs Hn). reflexivity.
Qed.

(** X2. A save that returns changes what is read under the path it wrote
    only: an id whose path leads elsewhere reads as before.  (Two ids can
    share a path: "./x" and "x" both lead to the file x.json.) *)
Theorem save_leaves_other_records (c : Conversation.t) (dir dir' : Directory)
        (conversation_id : string) (w : World) :
  save_conversation c dir = (Ok tt, dir') ->
  locate (file_name conversation_id)
  <> locate (file_name (Conversation.id c)) ->
  get_conversation dir' conversation_id w
  = get_conversation dir conversation_id w.
Proof. apply get_other_conversation. Qed.






End RepositoryFrame.



Lemma save_leaves_other_records_witness :
  exists dir',
    save_conversation (codec := decimal_codec) farewell (disk turn0)
    = (Ok tt, dir') /\
    locate (file_name "c") <> locate (file_name (Conversation.id farewell)) /\
    get_conversation (codec := decimal_codec) dir' "c" world0
    = get_conversation (codec := decimal_codec) (disk turn0) "c" world0.
Proof.
  assert (Hn : locate (file_name "c")
               <> locate (file_name (Conversation.id farewell)))
    by (vm_compute; discriminate).
  eexists. split; [reflexivity|]. split; [exact Hn|].
  exact (save_leaves_other_records (codec := decimal_codec)
           farewell (disk turn0) _ "c" world0 eq_refl Hn).
Defined.


Section RepositoryListing.
Context {codec : DateCodec}.
Hypothesis iso_round_trip : forall t, fromisoformat (isoformat t) = Some t.

Lemma load_each_document file c rest w :
  File.text file = Document (_conversation_to_dict c) ->
  exists c' w1,
    _dict_to_conversation (_conversation_to_dict c) w = (Ok c', w1) /\
    same_text c' c /\
    load_each (file :: rest) w
    = bind (load_each rest) (fun others => ret (c' :: others)) w1.
Proof.
  intros Ht.
  destruct (conversation_round_trip iso_round_trip c w) as (c' & w1 & E & Hc).
  exists c', w1. split; [exact E|]. split; [exact Hc|].
  cbn [load_each]. rewrite Ht.
  unfold bind at 1, try_except, bind at 1, json_load, ret.
  cbn beta iota. unfold bind at 1. rewrite E. cbn beta iota.
  unfold bind, ret. destruct (load_each rest w1) as [[l| |] w2]; reflexivity.
Qed.

Lemma load_each_loaded json_files :
  Forall readable json_files ->
  forall w, exists convs w',
    load_each json_files w = (Ok convs, w') /\
    Forall2 loaded_from convs (filter is_document json_files).
Proof.
  induction 1 as [|file rest Hr _ IH]; intros w.
  - exists [], w. split; [reflexivity|constructor].
  - destruct Hr as [Hg|(c & Hc)].
    + rewrite (load_each_skips_garbled _ _ _ Hg).
      cbn [filter]. unfold is_document at 1. rewrite Hg. apply IH.
    + destruct (load_each_document file c rest w Hc)
        as (c' & w1 & _ & Hs & E).
      rewrite E. destruct (IH w1) as (convs & w2 & E2 & Hl).
      exists (c' :: convs), w2. unfold bind, ret. rewrite E2.
      split; [reflexivity|].
      cbn [filter]. unfold is_document at 1. rewrite Hc.
      constructor; [|exact Hl].
      exists c. split; [exact Hc|exact Hs].
Qed.

Lemma latest_first_readable dir :
  Forall readable (files dir) -> Forall readable (latest_first dir).
Proof.
  intros H. apply Forall_forall. intros f Hf. unfold latest_first in Hf.
  apply (Permutation_in _ (sort_reverse_perm File.st_mtime _)) in Hf.
  apply filter_In in Hf. rewrite Forall_forall in H. apply H, Hf.
Qed.

(** X4. Over a directory whose files are records written by a save or
    unparsable text, [list_conversations] returns: it gives one
    conversation for every parsable file among the first [limit] .json
    files taken in the order of their modification times, latest first,
    skipping the unparsable ones; for a limit of zero or more it gives at
    most [limit] conversations.  The order is that of a sort of the .json
    files by modification time. *)
Theorem list_conversations_loads_newest (dir : Directory) (limit : Z)
        (w : World) :
  Forall readable (files dir) ->
  exists convs w',
    list_conversations dir limit w = (Ok convs, w') /\
    Forall2 loaded_from convs
            (filter is_document (slice_to limit (latest_first dir))) /\
    ((0 <= limit)%Z -> (Z.of_nat (length convs) <= limit)%Z) /\
    StronglySorted modified_before (latest_first dir) /\
    Permutation (latest_first dir) (filter is_json_file (files dir)).
Proof.
  intros Hdir. unfold list_conversations. fold (latest_first dir).
  assert (Hr : Forall readable (slice_to limit (latest_first dir))).
  { unfold slice_to. apply Forall_firstn_keeps, latest_first_readable, Hdir. }
  destruct (load_each_loaded _ Hr w) as (convs & w' & E & Hl).
  exists convs, w'. split; [exact E|]. split; [exact Hl|]. split; [|split].
  - intros Hlimit. apply Forall2_length in Hl. rewrite Hl.
    pose proof (filter_length_le is_document
                  (slice_to limit (latest_first dir))) as Hle.
    unfold slice_to in *.
    destruct (limit <? 0)%Z eqn:En; [apply Z.ltb_lt in En; lia|].
    rewrite length_firstn in Hle. lia.
  - apply (sort_reverse_sorted File.st_mtime).
  - apply sort_reverse_perm.
Qed.


End RepositoryListing.


Lemma list_conversations_loads_newest_witness :
  Forall (readable (codec := decimal_codec)) (files (disk turn0)) /\
  exists convs w',
    list_conversations (codec := decimal_codec) (disk turn0) 50 world0
    = (Ok convs, w') /\
    (Z.of_nat (length convs) <= 50)%Z.
Proof.
  split; [exact turn0_readable|].
  destruct (list_conversations_loads_newest (codec := decimal_codec)
              decimal_round_trip (disk turn0) 50 world0 turn0_readable)
    as (convs & w' & E & _ & Hb & _).
  exists convs, w'. split; [exact E|]. apply Hb. lia.
Defined.


(** ** The use cases: unknown conversation, successful turn, start *)

Section TurnOutcomes.
Context {L : Type} {backend : LanguageModel L} {codec : DateCodec}.


Lemma send_message_needs_record default_config cid text config
      (s : System L) r s' :
  send_message default_config cid text config s = (Ok r, s') ->
  exists stored w2,
    get_conversation (disk s) cid (ticked (world s)) = (Ok (Some stored), w2).
Proof.
  unfold send_message.
  unfold bind at 1, hold at 1, modify. unfold bind at 1, in_world at 1, zoom, now.
  cbn [world disk model working requests].
  unfold bind at 1, get. unfold bind at 1, in_world at 1, zoom.
  cbn [world disk model working requests].
  change {| clock := clock (world s); ticks := S (ticks (world s));
            urandom := urandom (world s); drawn := drawn (world s) |}
    with (ticked (world s)).
  destruct (get_conversation (disk s) cid (ticked (world s)))
    as [[[stored|]|e0|] w2]; try (intros H; discriminate H).
  intros _. exists stored, w2. reflexivity.
Qed.

Lemma send_message_succeeds default_config cid text config (s : System L) r s' :
  send_message default_config cid text config s = (Ok r, s') ->
  exists stored w2 reply t_end elapsed,
    get_conversation (disk s) cid (ticked (world s)) = (Ok (Some stored), w2) /\
    r = with_processing_time reply elapsed /\
    save_conversation
      (replied (appended stored w2 text) (ChatResponse.message reply) t_end)
      (disk s)
    = (Ok tt, disk s') /\
    working s'
    = Some (replied (appended stored w2 text)
                    (ChatResponse.message reply) t_end) /\
    requests s'
    = requests s ++ [get_context_messages (appended stored w2 text) 10].
Proof.
  intros Hrun.
  destruct (send_message_needs_record _ _ _ _ _ _ _ Hrun) as (stored & w2 & G).
  rewrite (send_message_found _ _ _ _ _ _ _ G) in Hrun.
  cbv zeta in Hrun.
  unfold bind, in_model, in_world, save, in_disk, zoom, log_request, hold,
    modify, ret, now, add_message, bind, now, ret in Hrun.
  cbn -[save_conversation] in Hrun.
  exists stored, w2.
  destruct (is_loaded (model s)); cbn -[save_conversation] in Hrun.
  - destruct (generate_response _ _ _) as [[r0|e2|] [m2 w4]];
      cbn -[save_conversation] in Hrun; try discriminate Hrun.
    destruct (save_conversation _ _) as [[[]|e3|] d'] eqn:Sv;
      try discriminate Hrun.
    injection Hrun as <- <-.
    eexists r0, _, _. split; [exact G|]. split; [reflexivity|].
    cbn [disk working requests]. split; [exact Sv|]. split; reflexivity.
  - destruct (load_model _ _) as [[[]|e1|] [m1 w3]];
      cbn -[save_conversation] in Hrun; try discriminate Hrun.
    destruct (generate_response _ _ _) as [[r0|e2|] [m2 w4]];
      cbn -[save_conversation] in Hrun; try discriminate Hrun.
    destruct (save_conversation _ _) as [[[]|e3|] d'] eqn:Sv;
      try discriminate Hrun.
    injection Hrun as <- <-.
    eexists r0, _, _. split; [exact G|]. split; [reflexivity|].
    cbn [disk working requests]. split; [exact Sv|]. split; reflexivity.
Qed.

(** What [start_conversation] does; the id it draws names a file, so the
    save returns. *)
Lemma start_conversation_runs (system_prompt : option string) (s : System L) :
  exists c s',
    start_conversation system_prompt s = (Ok c, s') /\
    Conversation.id c = uuids (world s) (drawn (world s)) /\
    Conversation.title c = Some "New Conversation" /\
    map spoken (Conversation.messages c)
    = map (fun p => (SYSTEM, p)) (given_prompt system_prompt) /\
    Forall (fun m => Message.id m <> "") (Conversation.messages c) /\
    save_conversation c (disk s) = (Ok tt, disk s') /\
    model s' = model s.
Proof.
  unfold start_conversation.
  destruct system_prompt as [[|a p]|];
    unfold bind, in_world, save, in_disk, zoom, new_Conversation, or_now,
      new_Message, add_message, bind, uuid4, now, ret;
    cbn -[save_conversation];
    match goal with
    | |- context [save_conversation ?c ?d] =>
        rewrite (save_conversation_entry c (file_name (Conversation.id c)) d)
          by apply uuids_name_files
    end;
    eexists _, _; (split; [reflexivity|]); cbn [Conversation.id
      Conversation.title Conversation.messages disk model map given_prompt];
    (do 3 (split; [reflexivity|]));
    (split; [|split; [apply save_conversation_entry, uuids_name_files
                     |reflexivity]]);
    repeat constructor; apply uuids_not_empty.
Qed.

End TurnOutcomes.

Section TurnSuccess.
Context {L : Type} {backend : LanguageModel L} {codec : DateCodec}.

Lemma context_ends_with_newest (l : list Message.t) (x : Message.t) :
  exists pre, slice_from (-10) (l ++ [x]) = pre ++ [x] /\ length pre <= 9.
Proof.
  unfold slice_from. rewrite length_app. simpl.
  set (k := Z.to_nat (Z.max 0 (Z.of_nat (length l + 1) + -10))).
  assert (Hk : k <= length l) by (unfold k; lia).
  exists (skipn k l). rewrite skipn_app.
  replace (k - length l) with 0 by lia. simpl.
  split; [reflexivity|]. rewrite length_skipn. unfold k. lia.
Qed.

(** X7. A turn that succeeds writes back the conversation it read with
    exactly two messages appended, the user's and then the reply it
    returns, and that save returned; the backend was handed at most ten
    messages, the last of them the user's; the reply carries a processing
    time. *)
Theorem successful_turn_appends_two_messages
        default_config cid text config (s s' : System L) (r : ChatResponse.t) :
  send_message default_config cid text config s = (Ok r, s') ->
  exists stored user_msg saved,
    (exists w1 w2,
       get_conversation (disk s) cid w1 = (Ok (Some stored), w2)) /\
    Message.role user_msg = USER /\
    Message.content user_msg = text /\
    Conversation.id saved = Conversation.id stored /\
    Conversation.messages saved
    = Conversation.messages stored ++ [user_msg; ChatResponse.message r] /\
    save_conversation saved (disk s) = (Ok tt, disk s') /\
    (exists earlier,
       requests s' = requests s ++ [earlier ++ [user_msg]] /\
       length earlier <= 9) /\
    exists elapsed, ChatResponse.processing_time r = Some elapsed.
Proof.
  intros H.
  destruct (send_message_succeeds _ _ _ _ _ _ _ H)
    as (stored & w2 & reply & t_end & elapsed & G & Hr & Hd & _ & Hq).
  exists stored, (user_message_at w2 text),
    (replied (appended stored w2 text) (ChatResponse.message reply) t_end).
  split; [exists (ticked (world s)), w2; exact G|].
  do 3 (split; [reflexivity|]).
  split; [subst r; simpl; rewrite <- app_assoc; reflexivity|].
  split; [exact Hd|]. split.
  - destruct (context_ends_with_newest (Conversation.messages stored)
                (user_message_at w2 text)) as (pre & Hpre & Hlen).
    exists pre. split; [|exact Hlen].
    rewrite Hq. unfold get_context_messages. simpl. rewrite <- Hpre.
    reflexivity.
  - exists elapsed. subst r. reflexivity.
Qed.

End TurnSuccess.


Lemma successful_turn_appends_two_messages_witness :
  exists r s' stored user_msg saved,
    send_message (backend := MockLanguageModel) (codec := decimal_codec)
                 dialogpt_medium "c" "where is my wallet" None turn0
    = (Ok r, s') /\
    save_conversation (codec := decimal_codec) saved (disk turn0)
    = (Ok tt, disk s') /\
    Conversation.messages saved
    = Conversation.messages stored ++ [user_msg; ChatResponse.message r].
Proof.
  pose (run := send_message (backend := MockLanguageModel)
                            (codec := decimal_codec)
                            dialogpt_medium "c" "where is my wallet" None turn0).
  destruct (fst run) as [r| |] eqn:Er; try (vm_compute in Er; discriminate Er).
  assert (Hrun : run = (Ok r, snd run)).
  { rewrite <- Er. destruct run; reflexivity. }
  destruct (successful_turn_appends_two_messages
              (backend := MockLanguageModel) (codec := decimal_codec)
              dialogpt_medium "c" "where is my wallet" None turn0 (snd run) r
              Hrun)
    as (stored & um & saved & _ & _ & _ & _ & Hm & Hd & _).
  exists r, (snd run), stored, um, saved.
  split; [exact Hrun|]. split; [exact Hd|exact Hm].
Defined.

Section StartAndStore.
Context {L : Type} {backend : LanguageModel L} {codec : DateCodec}.
Hypothesis iso_round_trip : forall t, fromisoformat (isoformat t) = Some t.

(** X8. [start_conversation] always returns: the new conversation is
    titled "New Conversation", holds one system message when a non-empty
    prompt is given and none otherwise, and is saved, under the uuid drawn
    for it, without touching the backend; reading the repository under the
    new id gives back that very conversation. *)
Theorem started_conversation_is_found
        (system_prompt : option string) (s : System L) :
  exists c s',
    start_conversation system_prompt s = (Ok c, s') /\
    Conversation.title c = Some "New Conversation" /\
    map spoken (Conversation.messages c)
    = map (fun p => (SYSTEM, p)) (given_prompt system_prompt) /\
    save_conversation c (disk s) = (Ok tt, disk s') /\
    model s' = model s /\
    forall w, get_conversation (disk s') (Conversation.id c) w
              = (Ok (Some c), w).
Proof.
  destruct (start_conversation_runs system_prompt s)
    as (c & s' & E & Hid & Ht & Hm & Hids & Hs & Hmodel).
  exists c, s'. do 5 (split; [assumption|]).
  intros w.
  apply (get_saved_conversation iso_round_trip c
           (file_name (Conversation.id c)) (disk s)); [|rewrite Hid|exact Hs].
  - split; [rewrite Hid; apply uuids_not_empty|exact Hids].
  - apply uuids_name_files.
Qed.


End StartAndStore.

Lemma started_conversation_is_found_witness :
  exists c s',
    start_conversation (codec := decimal_codec)
      (Some "You are Alice") turn0 = (Ok c, s') /\
    map spoken (Conversation.messages c) = [(SYSTEM, "You are Alice")] /\
    get_conversation (codec := decimal_codec) (disk s') (Conversation.id c)
                     world0
    = (Ok (Some c), world0).
Proof.
  destruct (started_conversation_is_found (codec := decimal_codec)
              decimal_round_trip (Some "You are Alice") turn0)
    as (c & s' & E & _ & Hm & _ & _ & Hg).
  exists c, s'. split; [exact E|]. split; [exact Hm|apply Hg].
Defined.


(** ** The extractor: what its items look like *)

Section ExtractorShape.

Lemma always_ret_nil P : always (ret []) P.
Proof. intros w. exists [], w. split; [reflexivity|constructor]. Qed.

Lemma always_for_extend {A} (xs : list A)
      (body : A -> Py World (list MemoryItem.t)) P :
  (forall x, In x xs -> always (body x) P) ->
  always (for_extend xs body) P.
Proof.
  induction xs as [|x xs IH]; intros Hbody; simpl.
  - apply always_ret_nil.
  - intros w. unfold bind.
    destruct (Hbody x (or_introl eq_refl) w) as (l1 & w1 & E1 & H1).
    rewrite E1.
    destruct (IH (fun y Hy => Hbody y (or_intror Hy)) w1)
      as (l2 & w2 & E2 & H2).
    rewrite E2. exists (l1 ++ l2), w2. split; [reflexivity|].
    apply Forall_app. split; assumption.
Qed.

Lemma two_group_rules_categories pattern category :
  In (pattern, category) MEMORY_PATTERNS ->
  (2 <=? ngroups pattern) = true ->
  In category produced_categories.
Proof.
  intros Hin Hg. unfold MEMORY_PATTERNS in Hin. simpl in Hin.
  repeat (destruct Hin as [Hin|Hin];
          [injection Hin as <- <-; simpl in Hg |- *;
           try discriminate Hg; tauto|]).
  contradiction.
Qed.

(** X10. Whatever the conversation, the extractor returns, and each item
    it returns has category location, personal or schedule (the reminder
    and preference rules capture one group and are skipped), confidence
    1.0, access count 0, and for its context the unchanged text of one of
    the user messages. *)
Theorem extracted_items_shape (conversation : Conversation.t) (w : World) :
  exists items w',
    extract_memories conversation w = (Ok items, w') /\
    Forall (fun m =>
              In (MemoryItem.category m) produced_categories /\
              MemoryItem.confidence m = 1%Q /\
              MemoryItem.access_count m = 0%Z /\
              exists text, In text (user_contents conversation) /\
                           MemoryItem.context m = Some text)
           items.
Proof.
  revert w. change (always (extract_memories conversation)
    (fun m =>
       In (MemoryItem.category m) produced_categories /\
       MemoryItem.confidence m = 1%Q /\
       MemoryItem.access_count m = 0%Z /\
       exists text, In text (user_contents conversation) /\
                    MemoryItem.context m = Some text)).
  unfold extract_memories. apply always_for_extend. intros message Hm.
  destruct (role_eqb (Message.role message) USER) eqn:Hrole;
    [|apply always_ret_nil].
  assert (Hu : In (Message.content message) (user_contents conversation)).
  { unfold user_contents. apply in_map, filter_In. split; assumption. }
  unfold _extract_from_text. apply always_for_extend.
  intros [pattern category] Hrule. apply always_for_extend. intros m _.
  unfold memory_of_match.
  destruct (2 <=? ngroups pattern) eqn:Hg; [|apply always_ret_nil].
  intros w. unfold bind, now, ret. eexists _, _. split; [reflexivity|].
  constructor; [|constructor]. cbn.
  split; [exact (two_group_rules_categories _ _ Hrule Hg)|].
  split; [reflexivity|]. split; [reflexivity|].
  exists (Message.content message). split; [exact Hu|reflexivity].
Qed.

End ExtractorShape.

Section CaseAndTrim.

Lemma lower_char_not_upper c : not_upper (Text.lower_char c) = true.
Proof. destruct c as [[] [] [] [] [] [] [] []]; reflexivity. Qed.

Lemma lower_all_not_upper s : all_chars not_upper (Text.lower s) = true.
Proof.
  induction s as [|c s IH]; simpl; [reflexivity|].
  rewrite lower_char_not_upper, IH. reflexivity.
Qed.

Lemma lower_fixes_lower_case s :
  all_chars not_upper s = true -> Text.lower s = s.
Proof.
  induction s as [|c s IH]; simpl; intros H; [reflexivity|].
  apply andb_true_iff in H. destruct H as [Hc Hs].
  rewrite (IH Hs). unfold Text.lower_char. unfold not_upper in Hc.
  destruct (Text.is_upper c); [discriminate Hc|reflexivity].
Qed.

Variable P : ascii -> bool.

Lemma all_chars_take n : forall s,
  all_chars P s = true -> all_chars P (Text.take n s) = true.
Proof.
  induction n as [|n IH]; intros [|c s] H; simpl in *; try reflexivity.
  apply andb_true_iff in H. destruct H as [Hc Hs].
  rewrite Hc, (IH _ Hs). reflexivity.
Qed.

Lemma all_chars_drop_prefix p : forall s s',
  drop_prefix p s = Some s' -> all_chars P s = true -> all_chars P s' = true.
Proof.
  induction p as [|a p IH]; intros [|b s] s' H Hs; simpl in *;
    try discriminate H.
  - injection H as <-. reflexivity.
  - injection H as <-. exact Hs.
  - destruct (Ascii.eqb a b); [|discriminate H].
    apply andb_true_iff in Hs. apply (IH _ _ H), Hs.
Qed.

Lemma all_chars_lstrip s :
  all_chars P s = true -> all_chars P (Text.lstrip s) = true.
Proof.
  induction s as [|c s IH]; simpl; intros H; [reflexivity|].
  destruct (Text.isspace c); [|exact H].
  apply andb_true_iff in H. apply IH, H.
Qed.

Lemma all_chars_rstrip s :
  all_chars P s = true -> all_chars P (Text.rstrip s) = true.
Proof.
  induction s as [|c s IH]; simpl; intros H; [reflexivity|].
  apply andb_true_iff in H. destruct H as [Hc Hs]. specialize (IH Hs).
  destruct (Text.rstrip s) as [|d r].
  - destruct (Text.isspace c); simpl; [reflexivity|].
    rewrite Hc. reflexivity.
  - cbn [all_chars]. rewrite Hc. exact IH.
Qed.

Lemma all_chars_strip s :
  all_chars P s = true -> all_chars P (Text.strip s) = true.
Proof. intros H. apply all_chars_rstrip, all_chars_lstrip, H. Qed.

Local Abbreviation clean_captures := (Views.clean_captures P).

Lemma plus_greedy_chars (R : Type) cl (k : string -> option R) x : forall s,
  plus_greedy R cl s k = Some x -> all_chars P s = true ->
  exists s', k s' = Some x /\ all_chars P s' = true.
Proof.
  induction s as [|c s IH]; simpl; intros H Hs; [discriminate H|].
  apply andb_true_iff in Hs. destruct Hs as [_ Hs].
  destruct (in_class cl c); [|discriminate H].
  unfold orelse in H. destruct (plus_greedy R cl s k) as [y|] eqn:E.
  - injection H as ->. apply IH; [reflexivity|exact Hs].
  - exists s. split; assumption.
Qed.

Lemma plus_lazy_chars (R : Type) cl (k : string -> option R) x : forall s,
  plus_lazy R cl s k = Some x -> all_chars P s = true ->
  exists s', k s' = Some x /\ all_chars P s' = true.
Proof.
  induction s as [|c s IH]; simpl; intros H Hs; [discriminate H|].
  apply andb_true_iff in Hs. destruct Hs as [_ Hs].
  destruct (in_class cl c); [|discriminate H].
  unfold orelse in H. destruct (k s) as [y|] eqn:E.
  - injection H as ->. exists s. split; assumption.
  - apply IH; assumption.
Qed.

(** What a match captures is cut out of the text it runs on. *)
Lemma rmatch_chars (R : Type) r :
  forall s cs (k : string -> captures -> option R) x,
    rmatch R r s cs k = Some x ->
    all_chars P s = true -> clean_captures cs ->
    exists s' cs',
      k s' cs' = Some x /\ all_chars P s' = true /\ clean_captures cs'.
Proof.
  induction r as [l|r1 IH1 r2 IH2|r1 IH1 r2 IH2|cl g|n r1 IH1];
    intros s cs k x H Hs Hcs; simpl in H.
  - destruct (drop_prefix l s) as [s'|] eqn:E; [|discriminate H].
    exists s', cs. split; [exact H|]. split; [|exact Hcs].
    exact (all_chars_drop_prefix _ _ _ E Hs).
  - unfold orelse in H. destruct (rmatch R r1 s cs k) as [y|] eqn:E.
    + injection H as ->. exact (IH1 _ _ _ _ E Hs Hcs).
    + exact (IH2 _ _ _ _ H Hs Hcs).
  - destruct (IH1 _ _ _ _ H Hs Hcs) as (s1 & cs1 & Hk1 & Hs1 & Hcs1).
    exact (IH2 _ _ _ _ Hk1 Hs1 Hcs1).
  - destruct g.
    + destruct (plus_greedy_chars _ _ _ _ _ H Hs) as (s' & Hk & Hs').
      exists s', cs. auto.
    + destruct (plus_lazy_chars _ _ _ _ _ H Hs) as (s' & Hk & Hs').
      exists s', cs. auto.
  - destruct (IH1 _ _ _ _ H Hs Hcs) as (s' & cs' & Hk & Hs' & Hcs').
    eexists s', _. split; [exact Hk|]. split; [exact Hs'|].
    constructor; [|exact Hcs']. simpl. unfold consumed.
    apply all_chars_take, Hs.
Qed.

Lemma match_at_chars r s len cs :
  match_at r s = Some (len, cs) -> all_chars P s = true -> clean_captures cs.
Proof.
  intros H Hs. unfold match_at in H.
  destruct (rmatch_chars _ r s [] _ _ H Hs (Forall_nil _))
    as (s' & cs' & Hk & _ & Hcs).
  injection Hk as _ <-. exact Hcs.
Qed.

Lemma finditer_from_chars r : forall s skip,
  all_chars P s = true ->
  Forall clean_captures (finditer_from r s skip).
Proof.
  induction s as [|c s IH]; intros skip Hs.
  - destruct skip; simpl; [|constructor].
    destruct (match_at r "") as [[len cs]|] eqn:E; [|constructor].
    constructor; [|constructor]. exact (match_at_chars _ _ _ _ E Hs).
  - assert (Hs' : all_chars P s = true).
    { simpl in Hs. apply andb_true_iff in Hs. apply Hs. }
    destruct skip as [|n]; cbn [finditer_from]; [|apply IH, Hs'].
    destruct (match_at r (String c s)) as [[len cs]|] eqn:E.
    + constructor; [exact (match_at_chars _ _ _ _ E Hs)|apply IH, Hs'].
    + apply IH, Hs'.
Qed.

Lemma group_chars n cs : clean_captures cs -> all_chars P (group n cs) = true.
Proof.
  induction 1 as [|[m s] cs Hc _ IH]; simpl; [reflexivity|].
  destruct (n =? m); [exact Hc|exact IH].
Qed.

End CaseAndTrim.

Section StripTwice.

Lemma lstrip_head s :
  Text.lstrip s = "" \/
  exists c t, Text.lstrip s = String c t /\ Text.isspace c = false.
Proof.
  induction s as [|c s IH]; simpl; [left; reflexivity|].
  destruct (Text.isspace c) eqn:E; [exact IH|].
  right. exists c, s. split; [reflexivity|exact E].
Qed.

Lemma rstrip_cons c s :
  Text.rstrip (String c s)
  = match Text.rstrip s with
    | EmptyString =>
        if Text.isspace c then EmptyString else String c EmptyString
    | r => String c r
    end.
Proof. reflexivity. Qed.

Lemma rstrip_twice s : Text.rstrip (Text.rstrip s) = Text.rstrip s.
Proof.
  induction s as [|c s IH]; [reflexivity|].
  rewrite rstrip_cons. destruct (Text.rstrip s) as [|d r] eqn:E.
  - destruct (Text.isspace c) eqn:Ec; [reflexivity|].
    rewrite rstrip_cons. simpl. rewrite Ec. reflexivity.
  - rewrite rstrip_cons, IH. reflexivity.
Qed.

Lemma rstrip_keeps_head c t :
  Text.isspace c = false ->
  exists r, Text.rstrip (String c t) = String c r.
Proof.
  intros Hc. rewrite rstrip_cons. destruct (Text.rstrip t) as [|d r].
  - rewrite Hc. exists "". reflexivity.
  - exists (String d r). reflexivity.
Qed.

Lemma strip_twice s : Text.strip (Text.strip s) = Text.strip s.
Proof.
  unfold Text.strip.
  destruct (lstrip_head s) as [E|(c & t & E & Hc)]; rewrite E.
  - reflexivity.
  - destruct (rstrip_keeps_head c t Hc) as (r & Er).
    rewrite Er. cbn [Text.lstrip]. rewrite Hc, <- Er.
    apply rstrip_twice.
Qed.

End StripTwice.

Section ExtractorNormalForm.

Lemma stripped_group_normal text_lower pattern m :
  all_chars not_upper text_lower = true ->
  In m (finditer pattern text_lower) ->
  forall n, normal_form (Text.strip (group n m)).
Proof.
  intros Ht Hm n.
  pose proof (finditer_from_chars not_upper pattern text_lower 0 Ht) as Hall.
  rewrite Forall_forall in Hall. specialize (Hall m Hm).
  split; [|apply strip_twice].
  apply lower_fixes_lower_case, all_chars_strip, group_chars, Hall.
Qed.

Lemma triples_of_text_normal text :
  Forall (fun t : Triple => normal_form (fst (fst t)) /\ normal_form (snd (fst t)))
         (triples_of_text text).
Proof.
  unfold triples_of_text. apply Forall_flat_map, Forall_forall.
  intros [pattern category] _. unfold triples_of_rule.
  destruct (2 <=? ngroups pattern); [|constructor].
  apply Forall_map, Forall_forall. intros m Hm. simpl.
  split; apply (stripped_group_normal (Text.lower text) pattern m);
    auto using lower_all_not_upper.
Qed.

(** X11. Every key and value the extractor returns is in lower case and
    has no white space at either end: lower-casing or stripping it again
    changes nothing.  (The match runs on the lower-cased message, so the
    case of what the user wrote is not kept.) *)
Theorem extracted_keys_are_lower_case_and_trimmed
        (conversation : Conversation.t) (w : World) :
  exists items w',
    extract_memories conversation w = (Ok items, w') /\
    Forall (fun m => normal_form (MemoryItem.key m) /\
                     normal_form (MemoryItem.value m))
           items.
Proof.
  destruct (stamps_extract_memories conversation w) as (items & w' & E & M).
  exists items, w'. split; [exact E|].
  assert (H : Forall (fun t : Triple =>
                        normal_form (fst (fst t)) /\ normal_form (snd (fst t)))
                     (map triple items)).
  { rewrite M. unfold triples_of. apply Forall_flat_map, Forall_forall.
    intros message _.
    destruct (role_eqb (Message.role message) USER); [|constructor].
    apply triples_of_text_normal. }
  rewrite Forall_map in H. exact H.
Qed.

End ExtractorNormalForm.

(** ** The scorer: empty keys, re-scoring, the values of confidence *)

Section ScorerMore.

Lemma contains_empty s : Text.contains "" s = true.
Proof. destruct s; reflexivity. Qed.

Lemma raw_score_with_confidence query m c :
  raw_score query (with_confidence m c) = raw_score query m.
Proof. reflexivity. Qed.

Lemma with_confidence_twice m c c' :
  with_confidence (with_confidence m c) c' = with_confidence m c'.
Proof. reflexivity. Qed.

Lemma relevant_perm query pool :
  Permutation (_find_relevant_memories query pool)
              (map (rescored query) (filter (positive query) pool)).
Proof.
  unfold _find_relevant_memories. rewrite sort_reverse_perm.
  rewrite collect_relevant_filter. reflexivity.
Qed.

Lemma relevant_origin query pool r :
  In r (_find_relevant_memories query pool) ->
  exists m, In m pool /\ 0 < raw_score query m /\ r = rescored query m.
Proof.
  intros Hr. eapply Permutation_in in Hr; [|apply relevant_perm].
  apply in_map_iff in Hr. destruct Hr as (m & <- & Hm).
  apply filter_In in Hm. destruct Hm as [Hm Hp].
  exists m. repeat split; auto. apply Nat.ltb_lt. exact Hp.
Qed.

Lemma relevant_sorted query pool :
  StronglySorted (descending MemoryItem.confidence)
                 (_find_relevant_memories query pool).
Proof. apply (sort_reverse_sorted MemoryItem.confidence). Qed.

(** X12. An item whose key is the empty string is relevant to every
    query: the empty string occurs in any text, so the item scores at
    least 2 and is returned with a confidence of at least 2/3. *)
Theorem empty_key_matches_every_query
        (query : string) (pool : list MemoryItem.t) (m : MemoryItem.t) :
  In m pool ->
  MemoryItem.key m = "" ->
  exists r,
    In r (_find_relevant_memories query pool) /\
    triple r = triple m /\
    (2 # 3 <= MemoryItem.confidence r)%Q.
Proof.
  intros Hm Hk.
  assert (Hs : 2 <= raw_score query m).
  { unfold raw_score. rewrite Hk. simpl Text.lower at 1.
    rewrite contains_empty. lia. }
  exists (rescored query m).
  split; [|split; [reflexivity|]].
  { eapply Permutation_in; [symmetry; apply relevant_perm|].
    apply in_map, filter_In. split; [exact Hm|].
    apply Nat.ltb_lt. lia. }
  simpl. rewrite normalized_values.
  pose proof (raw_score_le_4 query m).
  destruct (raw_score query m) as [|[|[|n]]]; try lia;
    unfold Qle; simpl; lia.
Qed.

Lemma collect_relevant_fixed query l :
  Forall (fun x => positive query x = true /\ rescored query x = x) l ->
  collect_relevant (Text.lower query) l = l.
Proof.
  induction 1 as [|x l [Hp Hx] _ IH]; simpl; [reflexivity|].
  rewrite relevance_score_raw. unfold positive in Hp. rewrite Hp.
  unfold rescored, normalized in Hx. rewrite Hx, IH. reflexivity.
Qed.

Lemma sort_reverse_sorted_fixed {A} (key : A -> Q) (l : list A) :
  StronglySorted (descending key) l -> sort_reverse key l = l.
Proof.
  induction 1 as [|x l Hs IH Hx]; [reflexivity|].
  cbn [sort_reverse fold_right]. fold (sort_reverse key l). rewrite IH.
  destruct l as [|y l']; [reflexivity|].
  cbn [insert_reverse].
  inversion Hx as [|? ? Hy _]; subst. unfold descending in Hy.
  apply Qle_bool_iff in Hy. rewrite Hy. reflexivity.
Qed.

(** X13. Scoring is idempotent: ranking the scorer's own output against
    the same query gives that output back, same items, same confidences,
    same order. *)
Theorem scoring_twice_changes_nothing
        (query : string) (pool : list MemoryItem.t) :
  _find_relevant_memories query (_find_relevant_memories query pool)
  = _find_relevant_memories query pool.
Proof.
  pose proof (relevant_sorted query pool) as Hsorted.
  pose proof (relevant_origin query pool) as Hback.
  set (out := _find_relevant_memories query pool) in *.
  unfold _find_relevant_memories at 1.
  rewrite collect_relevant_fixed.
  - apply sort_reverse_sorted_fixed. exact Hsorted.
  - apply Forall_forall. intros r Hr.
    destruct (Hback r Hr) as (m & _ & Hs & ->).
    unfold positive, rescored.
    rewrite raw_score_with_confidence, with_confidence_twice.
    split; [apply Nat.ltb_lt, Hs|reflexivity].
Qed.

(** X14. The scorer never returns more items than the pool holds, and the
    confidence of every item it returns is 1/3, 2/3 or 1. *)
Theorem confidence_takes_three_values
        (query : string) (pool : list MemoryItem.t) :
  length (_find_relevant_memories query pool) <= length pool /\
  Forall (fun r => In (MemoryItem.confidence r) [1 # 3; 2 # 3; 1]%Q)
         (_find_relevant_memories query pool).
Proof.
  split.
  - rewrite (Permutation_length (relevant_perm query pool)), length_map.
    apply filter_length_le.
  - apply Forall_forall. intros r Hr.
    destruct (relevant_origin query pool r Hr) as (m & _ & Hs & ->).
    simpl. rewrite normalized_values.
    destruct (raw_score query m) as [|[|[|n]]]; [lia|simpl; auto..].
Qed.

End ScorerMore.

Lemma empty_key_matches_every_query_witness :
  exists r,
    In r (_find_relevant_memories "what time is it"
            [with_confidence capital_item 0;
             {| MemoryItem.key := ""; MemoryItem.value := "desk";
                MemoryItem.category := "location";
                MemoryItem.created_at := 0%Z;
                MemoryItem.last_accessed := 0%Z;
                MemoryItem.access_count := 0%Z;
                MemoryItem.confidence := 1%Q;
                MemoryItem.context := None |}]) /\
    (2 # 3 <= MemoryItem.confidence r)%Q.
Proof.
  destruct (empty_key_matches_every_query "what time is it"
              [with_confidence capital_item 0;
               {| MemoryItem.key := ""; MemoryItem.value := "desk";
                  MemoryItem.category := "location";
                  MemoryItem.created_at := 0%Z;
                  MemoryItem.last_accessed := 0%Z;
                  MemoryItem.access_count := 0%Z;
                  MemoryItem.confidence := 1%Q;
                  MemoryItem.context := None |}]
              _ (or_intror (or_introl eq_refl)) eq_refl)
    as (r & Hin & _ & Hc).
  exists r. split; assumption.
Defined.

(** ** The context assembler: size and the empty conversation *)

Section AssemblerMore.

Lemma retained_length current_message memories :
  length (retained current_message memories)
  = Nat.min 3 (relevant_count current_message memories).
Proof.
  unfold retained, relevant_count. destruct memories as [pool|]; [|reflexivity].
  rewrite length_firstn, (Permutation_length (relevant_perm _ pool)), length_map.
  reflexivity.
Qed.

Lemma window_length conversation window :
  (1 <= window)%Z ->
  length (get_context_messages conversation window)
  = Nat.min (Z.to_nat window) (length (Conversation.messages conversation)).
Proof.
  intros Hw. unfold get_context_messages, slice_from. rewrite length_skipn.
  destruct (- window <? 0)%Z eqn:E; [|apply Z.ltb_ge in E; lia].
  lia.
Qed.

(** X15. For a window of at least one, the assembled context holds the
    last min(window, n) messages of the conversation plus one message per
    retained memory, and at most three memories are retained: its length
    is min(window, n) + min(3, number of pool items that score), hence at
    most window + 3. *)
Theorem context_length_for_positive_window
        window conversation current_message memories (w : World) :
  (1 <= window)%Z ->
  exists out w',
    get_relevant_context window conversation current_message memories w
    = (Ok out, w') /\
    length out
    = Nat.min (Z.to_nat window) (length (Conversation.messages conversation))
      + Nat.min 3 (relevant_count current_message memories) /\
    (Z.of_nat (length out) <= window + 3)%Z.
Proof.
  intros Hw. rewrite get_relevant_context_retained.
  destruct (inject_memories_length (retained current_message memories)
              (get_context_messages conversation window) w)
    as (out & w' & E & Hl).
  exists out, w'. split; [exact E|].
  rewrite Hl, retained_length, (window_length _ _ Hw). split; lia.
Qed.

(** X16. On a conversation without messages the context consists of the
    memory messages alone, and their order is not the ranking: the message
    of the best-ranked memory comes last, after those of the others. *)
Theorem empty_conversation_puts_best_memory_last
        window conversation current_message memories (w : World) :
  Conversation.messages conversation = [] ->
  exists out w',
    get_relevant_context window conversation current_message memories w
    = (Ok out, w') /\
    map Message.content out
    = first_to_last (map memory_text (retained current_message memories)) /\
    Forall is_memory_message out.
Proof.
  intros Hm. rewrite get_relevant_context_retained.
  unfold get_context_messages, slice_from. rewrite Hm, skipn_nil.
  destruct (retained current_message memories) as [|best others].
  - exists [], w. repeat split; constructor.
  - cbn [inject_memories].
    destruct (memory_message_runs best w) as (m & w1 & E & Hc & His).
    unfold bind at 1. rewrite E.
    change (list_insert (-1) m []) with ([] ++ [m]).
    destruct (inject_memories_before_last others [] m w1)
      as (injected & w' & E' & Hcs & Hall).
    rewrite E'. exists ([] ++ injected ++ [m]), w'.
    split; [reflexivity|]. simpl. split.
    + rewrite map_app, Hcs. simpl. rewrite Hc. reflexivity.
    + apply Forall_app. split; [exact Hall|]. constructor; [exact His|constructor].
Qed.

End AssemblerMore.

Lemma context_length_for_positive_window_witness :
  (1 <= 2)%Z /\
  exists out w',
    get_relevant_context 2 four_messages "where are my keys"
                         (Some [keys_item; capital_item]) world0
    = (Ok out, w') /\
    length out = 3.
Proof.
  assert (H : (1 <= 2)%Z) by lia.
  split; [exact H|].
  destruct (context_length_for_positive_window 2 four_messages
              "where are my keys" (Some [keys_item; capital_item]) world0 H)
    as (out & w' & E & Hl & _).
  exists out, w'. split; [exact E|]. rewrite Hl. reflexivity.
Defined.

Lemma empty_conversation_puts_best_memory_last_witness :
  Conversation.messages (conversation_of []) = [] /\
  exists out w',
    get_relevant_context 10 (conversation_of [])
      "the location of my keys"
      (Some [desk_item; keys_item]) world0
    = (Ok out, w') /\
    map Message.content out
    = ["Memory: wallet is desk"; "Memory: keys is shelf"].
Proof.
  split; [reflexivity|].
  destruct (empty_conversation_puts_best_memory_last 10 (conversation_of [])
              "the location of my keys" (Some [desk_item; keys_item])
              world0 eq_refl)
    as (out & w' & E & Hc & _).
  exists out, w'. split; [exact E|]. rewrite Hc. reflexivity.
Defined.

(** ** The analyzer: counts, length, topics *)

Section AnalyzerMore.

Lemma roles_partition (messages : list Message.t) :
  length messages
  = length (filter (has_role USER) messages)
    + length (filter (has_role ASSISTANT) messages)
    + length (filter (has_role SYSTEM) messages).
Proof.
  induction messages as [|m ms IH]; [reflexivity|].
  destruct m as [i r c t md]. destruct r; simpl; lia.
Qed.

(** X17. The three role counts add up: message_count is
    user_message_count plus assistant_message_count plus the number of
    system messages, which the analysis does not report. *)
Theorem message_count_splits_by_role (conversation : Conversation.t) :
  Analysis.message_count (analyze_conversation conversation)
  = Analysis.user_message_count (analyze_conversation conversation)
    + Analysis.assistant_message_count (analyze_conversation conversation)
    + length (filter (has_role SYSTEM) (Conversation.messages conversation)).
Proof. unfold analyze_conversation. simpl. apply roles_partition. Qed.

Lemma length_join_space (parts : list string) :
  String.length (Text.join " " parts)
  = list_sum (map String.length parts) + (length parts - 1).
Proof.
  induction parts as [|p ps IH]; [reflexivity|].
  destruct ps as [|q ps]; [simpl; lia|].
  change (Text.join " " (p :: q :: ps))
    with (p ++ " " ++ Text.join " " (q :: ps))%string.
  rewrite !length_app_string, IH. simpl. lia.
Qed.

(** X18. conversation_length is the length of the contents joined by
    single spaces: the characters of all messages plus one separator
    between consecutive messages, that is n - 1 more for n messages. *)
Theorem conversation_length_counts_separators (conversation : Conversation.t) :
  Analysis.conversation_length (analyze_conversation conversation)
  = list_sum (map (fun m => String.length (Message.content m))
                  (Conversation.messages conversation))
    + (length (Conversation.messages conversation) - 1).
Proof.
  unfold analyze_conversation, all_content. simpl.
  rewrite length_join_space, map_map, length_map. reflexivity.
Qed.

Lemma startswith_app_r x s t :
  Text.startswith x s = true -> Text.startswith x (s ++ t) = true.
Proof.
  revert s. induction x as [|a x IH]; intros [|b s] H; simpl in *;
    try reflexivity; try discriminate H.
  apply andb_true_iff in H. destruct H as [Hab Hx].
  rewrite Hab, (IH _ Hx). reflexivity.
Qed.

Lemma contains_app_r x s t :
  Text.contains x s = true -> Text.contains x (s ++ t) = true.
Proof.
  induction s as [|c s IH]; intros H.
  - simpl in H. rewrite orb_false_r in H.
    destruct x; [|discriminate H]. apply contains_empty.
  - cbn [Text.contains] in H. apply orb_true_iff in H.
    change (String c s ++ t)%string with (String c (s ++ t)).
    cbn [Text.contains]. apply orb_true_iff. destruct H as [H|H].
    + left. apply (startswith_app_r x (String c s) t H).
    + right. apply IH, H.
Qed.

Lemma append_nil_r_string (a : string) : (a ++ "")%string = a.
Proof. induction a as [|x a IH]; simpl; [|rewrite IH]; reflexivity. Qed.

Lemma join_app_prefix sep (a b : list string) :
  exists rest, Text.join sep (a ++ b) = (Text.join sep a ++ rest)%string.
Proof.
  induction a as [|p a IH].
  - exists (Text.join sep b). reflexivity.
  - destruct IH as (rest & IH). destruct a as [|q a].
    + destruct b as [|r b].
      * exists "". simpl. symmetry. apply append_nil_r_string.
      * exists (sep ++ Text.join sep (r :: b))%string. reflexivity.
    + exists rest.
      change (Text.join sep ((p :: q :: a) ++ b))
        with (p ++ sep ++ Text.join sep ((q :: a) ++ b))%string.
      rewrite IH.
      change (Text.join sep (p :: q :: a))
        with (p ++ sep ++ Text.join sep (q :: a))%string.
      rewrite !append_assoc_string. reflexivity.
Qed.

End AnalyzerMore.

Section TopicsGrow.

Lemma topics_In topic (messages : list Message.t) :
  In topic (_extract_topics messages) <->
  exists keywords keyword,
    In (topic, keywords) topic_keywords /\ In keyword keywords /\
    Text.contains keyword (Text.lower (all_content messages)) = true.
Proof.
  unfold _extract_topics. rewrite in_flat_map. split.
  - intros ([t keywords] & Hin & Ht).
    destruct (existsb _ keywords) eqn:E; [|contradiction].
    destruct Ht as [<-|[]].
    apply existsb_exists in E. destruct E as (keyword & Hk & Hc).
    exists keywords, keyword. auto.
  - intros (keywords & keyword & Hin & Hk & Hc).
    exists (topic, keywords). split; [exact Hin|].
    assert (E : existsb (fun k => Text.contains k
                                    (Text.lower (all_content messages)))
                        keywords = true).
    { apply existsb_exists. exists keyword. auto. }
    rewrite E. left. reflexivity.
Qed.

Lemma flagged_names_NoDup {A} (g : string * A -> bool) (l : list (string * A)) :
  NoDup (map fst l) ->
  NoDup (flat_map (fun e => if g e then [fst e] else []) l).
Proof.
  induction l as [|e l IH]; simpl; intros H; [constructor|].
  inversion H as [|? ? Hx Hl]; subst. specialize (IH Hl).
  destruct (g e); simpl; [|exact IH].
  constructor; [|exact IH].
  intros Hin. apply Hx. apply in_flat_map in Hin.
  destruct Hin as (e' & He' & Hin). destruct (g e'); [|contradiction].
  destruct Hin as [<-|[]]. apply in_map, He'.
Qed.

(** X19. Topics are never lost as a conversation grows: every topic found
    in a list of messages is found in that list followed by further
    messages.  The topics found are bucket names of the table, each listed
    once. *)
Theorem topics_grow_with_conversation (messages more : list Message.t) :
  incl (_extract_topics messages) (_extract_topics (messages ++ more)) /\
  incl (_extract_topics messages) topic_names /\
  NoDup (_extract_topics messages).
Proof.
  split; [|split].
  - intros topic Ht. apply topics_In in Ht.
    destruct Ht as (keywords & keyword & Hin & Hk & Hc).
    apply topics_In. exists keywords, keyword.
    split; [exact Hin|]. split; [exact Hk|].
    unfold all_content. rewrite map_app.
    destruct (join_app_prefix " " (map Message.content messages)
                (map Message.content more)) as (rest & ->).
    rewrite lower_app. apply contains_app_r. exact Hc.
  - intros topic Ht. apply topics_In in Ht.
    destruct Ht as (keywords & _ & Hin & _).
    unfold topic_names. apply (in_map fst) in Hin. exact Hin.
  - unfold _extract_topics.
    assert (H : NoDup (map fst topic_keywords)).
    { repeat constructor; simpl; intuition discriminate. }
    pose proof (flagged_names_NoDup
                  (fun e => existsb
                     (fun keyword =>
                        Text.contains keyword
                          (Text.lower (all_content messages))) (snd e))
                  topic_keywords H) as Hn.
    erewrite flat_map_ext; [exact Hn|].
    intros [t k]. reflexivity.
Qed.

End TopicsGrow.

(** ** The prompt of the language models *)

Section PromptFacts.

Lemma join_last sep (parts : list string) (x : string) :
  exists before, Text.join sep (parts ++ [x]) = (before ++ x)%string.
Proof.
  induction parts as [|p parts IH].
  - exists "". reflexivity.
  - destruct IH as (before & IH). destruct parts as [|q parts].
    + exists (p ++ sep)%string. simpl. rewrite append_assoc_string.
      reflexivity.
    + exists (p ++ sep ++ before)%string.
      change (Text.join sep ((p :: q :: parts) ++ [x]))
        with (p ++ sep ++ Text.join sep ((q :: parts) ++ [x]))%string.
      rewrite IH, !append_assoc_string. reflexivity.
Qed.

Lemma join_holds_part sep (parts : list string) (x : string) :
  In x parts ->
  exists before after, Text.join sep parts = (before ++ x ++ after)%string.
Proof.
  induction parts as [|p parts IH]; intros Hin; [contradiction|].
  destruct Hin as [->|Hin].
  - destruct parts as [|q parts].
    + exists "", "". simpl. symmetry. apply append_nil_r_string.
    + exists "", (sep ++ Text.join sep (q :: parts))%string. reflexivity.
  - destruct (IH Hin) as (before & after & E).
    destruct parts as [|q parts]; [contradiction|].
    exists (p ++ sep ++ before)%string, after.
    change (Text.join sep (p :: q :: parts))
      with (p ++ sep ++ Text.join sep (q :: parts))%string.
    rewrite E, !append_assoc_string. reflexivity.
Qed.

(** X20. The prompt of the causal-LM backend ends with the cue
    "Assistant:", and the content of every message of the context occurs
    in it, system messages included. *)
Theorem prompt_keeps_every_message (messages : list Message.t) :
  Text.endswith "Assistant:"
    (HuggingFaceLanguageModel._messages_to_prompt messages) = true /\
  forall m, In m messages ->
    Text.contains (Message.content m)
      (HuggingFaceLanguageModel._messages_to_prompt messages) = true.
Proof.
  unfold HuggingFaceLanguageModel._messages_to_prompt. split.
  - destruct (join_last newline
                (map HuggingFaceLanguageModel.prompt_part messages)
                "Assistant:") as (before & ->).
    apply endswith_app.
  - intros m Hm.
    destruct (join_holds_part newline
                (map HuggingFaceLanguageModel.prompt_part messages
                 ++ ["Assistant:"])
                (HuggingFaceLanguageModel.prompt_part m))
      as (before & after & ->).
    { apply in_or_app. left. apply in_map, Hm. }
    apply contains_after.
    unfold HuggingFaceLanguageModel.prompt_part.
    destruct (Message.role m); rewrite append_assoc_string;
      apply contains_after, contains_at_head.
Qed.

(** X21. The fallback prompt of the pipeline backend also ends with
    "Assistant:", but it gives system messages no line: the prompt of a
    context is the prompt of that context with its system messages
    removed. *)
Theorem fallback_prompt_drops_system_messages (messages : list Message.t) :
  Text.endswith "Assistant:"
    (HuggingFacePipelineModel._messages_to_prompt messages) = true /\
  HuggingFacePipelineModel._messages_to_prompt messages
  = HuggingFacePipelineModel._messages_to_prompt
      (filter (fun m => negb (has_role SYSTEM m)) messages).
Proof.
  unfold HuggingFacePipelineModel._messages_to_prompt. split.
  - destruct (join_last newline
                (flat_map HuggingFacePipelineModel.prompt_parts messages)
                "Assistant:") as (before & ->).
    apply endswith_app.
  - f_equal. f_equal.
    induction messages as [|m ms IH]; [reflexivity|].
    cbn [flat_map filter]. rewrite IH.
    unfold has_role, HuggingFacePipelineModel.prompt_parts.
    destruct m as [i r c t md]. destruct r; reflexivity.
Qed.

End PromptFacts.

(** ** The controller *)

Section ControllerFacts.
Context {L : Type} {backend : LanguageModel L} {codec : DateCodec}.
Variable default_config : ModelConfig.t.

Lemma start_new_conversation_runs (system_prompt : option string)
      (st : Adapters.Controller L) :
  exists st',
    Adapters.start_new_conversation system_prompt st
    = (Ok (uuids (world (Adapters.system st))
                 (drawn (world (Adapters.system st)))), st') /\
    Adapters.current_conversation_id st'
    = Some (uuids (world (Adapters.system st))
                  (drawn (world (Adapters.system st)))).
Proof.
  unfold Adapters.start_new_conversation, Adapters.in_system, zoom, bind,
    modify, ret.
  destruct (start_conversation_runs (codec := codec) system_prompt
              (Adapters.system st))
    as (c & s' & E & Hid & _).
  rewrite E. cbn. rewrite Hid. eexists. split; reflexivity.
Qed.

(** X22. The controller's [send_message] never raises: whatever the
    backend and the repository do, it ends with a reply (an exception of
    the use case comes back as a failure reply that carries it), or, for a
    stored record or backend answer that the typed model cannot hold,
    outside the model. *)
Theorem controller_send_message_never_raises
        message conversation_id model_config (st : Adapters.Controller L) :
  exists st',
    (exists reply,
       Adapters.send_message default_config message conversation_id
                             model_config st = (Ok reply, st')) \/
    Adapters.send_message default_config message conversation_id
                          model_config st = (OutOfModel, st').
Proof.
  unfold Adapters.send_message. unfold bind at 1, get. cbn beta iota.
  unfold bind.
  destruct (Adapters.or_id conversation_id
              (Adapters.current_conversation_id st)) as [[|c i]|].
  - destruct (start_new_conversation_runs None st) as (st1 & E & _).
    rewrite E.
    destruct (Adapters.in_system _ st1) as [[r|e1|] st2]; eauto.
  - unfold ret.
    destruct (Adapters.in_system _ st) as [[r|e1|] st2]; eauto.
  - destruct (start_new_conversation_runs None st) as (st1 & E & _).
    rewrite E.
    destruct (Adapters.in_system _ st1) as [[r|e1|] st2]; eauto.
Qed.

Lemma in_system_keeps_current {A} (c : Py (System L) A)
      (st : Adapters.Controller L) :
  Adapters.current_conversation_id (snd (Adapters.in_system c st))
  = Adapters.current_conversation_id st.
Proof.
  unfold Adapters.in_system, zoom.
  destruct (c (Adapters.system st)) as [o s]. reflexivity.
Qed.

(** X23. Which conversation the controller talks to: a non-empty id given
    with the call, else the non-empty current id, is the target, and the
    current id is left as it was; when neither is there, a conversation is
    started, its id becomes the current one and is the target.  The reply,
    success or failure, names the target. *)
Theorem controller_settles_the_target
        message conversation_id model_config (st st' : Adapters.Controller L)
        (o : Outcome Adapters.Reply) :
  Adapters.send_message default_config message conversation_id model_config st
  = (o, st') ->
  let target :=
    match known_target conversation_id (Adapters.current_conversation_id st) with
    | Some id => id
    | None => uuids (world (Adapters.system st))
                    (drawn (world (Adapters.system st)))
    end in
  Adapters.current_conversation_id st'
  = match known_target conversation_id (Adapters.current_conversation_id st) with
    | Some _ => Adapters.current_conversation_id st
    | None => Some target
    end /\
  forall reply, o = Ok reply -> reply_conversation reply = Some target.
Proof.
  unfold Adapters.send_message, known_target.
  unfold bind at 1, get. cbn beta iota. unfold bind.
  assert (Hfinal : forall id (st1 : Adapters.Controller L) o1 st2,
            match Adapters.in_system
                    (send_message default_config id message model_config) st1
            with
            | (Ok response, st3) =>
                (Ok (Adapters.Success
                       (Message.content (ChatResponse.message response)) id
                       (ChatResponse.processing_time response)
                       (ChatResponse.model_info response)), st3)
            | (Raise e, st3) => (Ok (Adapters.Failure e (Some id)), st3)
            | (OutOfModel, st3) => (OutOfModel, st3)
            end = (o1, st2) ->
            Adapters.current_conversation_id st2
            = Adapters.current_conversation_id st1 /\
            forall reply, o1 = Ok reply -> reply_conversation reply = Some id).
  { intros id st1 o1 st2 H.
    pose proof (in_system_keeps_current
                  (send_message default_config id message model_config) st1)
      as Hk.
    destruct (Adapters.in_system _ st1) as [[r|e1|] st3];
      injection H as <- <-; simpl in Hk; (split; [exact Hk|]);
      intros reply Hr; inversion Hr; reflexivity. }
  destruct (Adapters.or_id conversation_id
              (Adapters.current_conversation_id st)) as [[|c i]|].
  - destruct (start_new_conversation_runs None st) as (st1 & E & Hc).
    rewrite E. intros H. destruct (Hfinal _ _ _ _ H) as [Hk Hr].
    cbn. split; [congruence|exact Hr].
  - unfold ret. intros H. destruct (Hfinal _ _ _ _ H) as [Hk Hr].
    cbn. split; [exact Hk|exact Hr].
  - destruct (start_new_conversation_runs None st) as (st1 & E & Hc).
    rewrite E. intros H. destruct (Hfinal _ _ _ _ H) as [Hk Hr].
    cbn. split; [congruence|exact Hr].
Qed.

End ControllerFacts.

Lemma controller_settles_the_target_witness :
  exists reply st',
    Adapters.send_message (backend := MockLanguageModel)
      (codec := decimal_codec) dialogpt_medium "hello" None None controller0
    = (Ok reply, st') /\
    Adapters.current_conversation_id st'
    = Some "00000000-0000-4000-8000-000000000000" /\
    reply_conversation reply = Some "00000000-0000-4000-8000-000000000000".
Proof.
  pose (run := Adapters.send_message (backend := MockLanguageModel)
                 (codec := decimal_codec) dialogpt_medium "hello" None None
                 controller0).
  destruct (fst run) as [reply| |] eqn:Er;
    try (vm_compute in Er; discriminate Er).
  assert (Hrun : run = (Ok reply, snd run)).
  { rewrite <- Er. destruct run; reflexivity. }
  destruct (controller_settles_the_target
              (backend := MockLanguageModel) (codec := decimal_codec)
              dialogpt_medium "hello" None None controller0 (snd run)
              (Ok reply) Hrun)
    as [Hc Hr].
  exists reply, (snd run). split; [exact Hrun|].
  split; [exact Hc|exact (Hr reply eq_refl)].
Defined.

Section ControllerStore.
Context {L : Type} {backend : LanguageModel L} {codec : DateCodec}.
Hypothesis iso_round_trip : forall t, fromisoformat (isoformat t) = Some t.


End ControllerStore.


(** ** The conversation's timestamps *)

Section Timestamps.

Lemma append_user_messages_times contents : forall conv w,
  exists conv' w',
    append_user_messages contents conv w = (Ok conv', w') /\
    Conversation.created_at conv' = Conversation.created_at conv /\
    clock w' = clock w /\ ticks w <= ticks w' /\
    (Conversation.updated_at conv' = Conversation.updated_at conv \/
     exists n, ticks w <= n /\ Conversation.updated_at conv' = clock w n).
Proof.
  induction contents as [|content rest IH]; intros conv w.
  - exists conv, w. simpl. do 4 (split; [reflexivity || lia|]).
    left. reflexivity.
  - cbn [append_user_messages].
    unfold bind, now, new_Message, add_message, bind, uuid4, now, ret. cbn.
    match goal with
    | |- context [append_user_messages rest ?c ?v] =>
        destruct (IH c v) as (conv' & w' & E & Hc & Hk & Ht & Hu)
    end.
    exists conv', w'. split; [exact E|]. cbn in Hc, Hk, Ht, Hu.
    split; [exact Hc|]. split; [exact Hk|]. split; [lia|].
    right. destruct Hu as [Hu|(n & Hn & Hu)].
    + exists (S (ticks w)). split; [lia|exact Hu].
    + exists n. split; [lia|exact Hu].
Qed.

(** X25. With a clock that never runs backwards, a conversation created
    without timestamps and then extended by any number of appended
    messages keeps [created_at] fixed and has [updated_at >= created_at]. *)
Theorem updated_at_never_before_created_at
        id title metadata (contents : list string) (w : World) :
  monotone_clock w ->
  exists c0 w0 c w',
    new_Conversation id [] title None None metadata w = (Ok c0, w0) /\
    append_user_messages contents c0 w0 = (Ok c, w') /\
    Conversation.created_at c = Conversation.created_at c0 /\
    (Conversation.created_at c <= Conversation.updated_at c)%Z /\
    length (Conversation.messages c) = length contents.
Proof.
  intros Hmono.
  assert (Hnew : exists c0 w0,
             new_Conversation id [] title None None metadata w = (Ok c0, w0) /\
             Conversation.created_at c0 = clock w (ticks w) /\
             Conversation.updated_at c0 = clock w (S (ticks w)) /\
             Conversation.messages c0 = [] /\
             clock w0 = clock w /\ ticks w0 = S (S (ticks w))).
  { unfold new_Conversation, bind, or_now, now, uuid4, ret.
    destruct (String.eqb id ""); eexists _, _; cbn; repeat split. }
  destruct Hnew as (c0 & w0 & E0 & Hc0 & Hu0 & Hm0 & Hk0 & Ht0).
  destruct (append_user_messages_times contents c0 w0)
    as (c & w' & E & Hc & _ & _ & Hu).
  destruct (append_user_messages_runs contents c0 w0)
    as (c' & w'' & E' & Hcs & _).
  rewrite E in E'. injection E' as <- <-.
  exists c0, w0, c, w'. split; [exact E0|]. split; [exact E|].
  split; [exact Hc|]. split.
  - rewrite Hc, Hc0. destruct Hu as [Hu|(n & Hn & Hu)]; rewrite Hu.
    + rewrite Hu0. apply Hmono. lia.
    + rewrite Hk0. apply Hmono. lia.
  - rewrite <- (length_map Message.content), Hcs, Hm0. reflexivity.
Qed.

End Timestamps.

Lemma world0_monotone : monotone_clock world0.
Proof. intros i j H. simpl. lia. Qed.

Lemma updated_at_never_before_created_at_witness :
  monotone_clock world0 /\
  exists c0 w0 c w',
    new_Conversation "test" [] None None None None world0 = (Ok c0, w0) /\
    append_user_messages fifteen c0 w0 = (Ok c, w') /\
    (Conversation.created_at c <= Conversation.updated_at c)%Z.
Proof.
  split; [exact world0_monotone|].
  destruct (updated_at_never_before_created_at "test" None None fifteen world0
              world0_monotone)
    as (c0 & w0 & c & w' & E0 & E & _ & Hle & _).
  exists c0, w0, c, w'. repeat split; assumption.
Defined.
